(** * crypto_monitor.py: the signal pipeline of [CryptoTradingAgent]

    A shallow embedding of the agent's pure core and of one pass of its
    loop: configuration loading, the bounded price history, percentage
    change, volatility, signal generation and the per-cycle state update.

    Modelling conventions.
    - A Python [float] is an IEEE 754 binary64 value: Rocq's primitive
      [float], whose operations are the correctly rounded ones.  A JSON
      integer price behaves in every operation used here like the float of
      the same value as long as the sums of the stored prices stay below
      2^53, so prices are floats throughout.
      Python's comparisons are the IEEE ones: [a >= b] is [b <=? a], and
      every comparison with NaN is false.
    - Two operations are not fixed by IEEE 754: [sum], taken as the plain
      sum from left to right, and [**], which CPython hands to libm's [pow]
      after answering the special cases itself.  The proofs below use of
      [pow] only what every libm gives: the sign of the result, that it is
      no NaN on finite operands, and CPython's own special cases.  The last
      bit of a volatility therefore is the platform's, not the model's; what
      is stated of its value is stated over every [Platform].
    - [self.state] is the record [State], passed in and returned.  Its two
      dictionaries are only ever read and written by key, so they are finite
      maps ([gmap string _]).  The fetched price dictionary is iterated, in
      insertion order, so it is the list of its items; its keys are pairwise
      distinct ([NoDup cp.*1]), as the keys of a Python dict are.
    - [datetime.now().isoformat()] is an input: every cycle comes with the
      clock readings its calls would obtain.
    - An exception is a value: [Raise e].  The only exception the arithmetic
      of the core can raise is [OverflowError], from [float.__pow__].
    - Printing, sleeping, the HTTP request and the state file are outside
      the model; the request's result is the [fetched] field of a [Tick]. *)

From Stdlib Require Import ZArith Floats Uint63.
From stdpp Require Import gmap strings list fin_maps.

Set Warnings "-inexact-float,-register-all".

(** ** Exceptions *)

Inductive exn := OverflowError.

Inductive result (A : Type) :=
| Ok (a : A)
| Raise (e : exn).
Arguments Ok {A} a.
Arguments Raise {A} e.

(** ** Python float arithmetic *)

Section PyFloat.
Local Open Scope float_scope.

(** [float(n)] for a length [n] (below 2^63, as every [len] is). *)
Definition float_of_len (n : nat) : float :=
  of_uint63 (Uint63.of_Z (Z.of_nat n)).

(** [float(z)] for a JSON integer [z] with [|z| < 2^63]. *)
Definition float_of_int (z : Z) : float :=
  if (z <? 0)%Z then - of_uint63 (Uint63.of_Z (- z)) else of_uint63 (Uint63.of_Z z).

(** [sum(xs)]: the start value is the integer [0], and the items are added
    from left to right (CPython before 3.12; later versions compensate the
    rounding error of the additions). *)
Definition py_sum (xs : list float) : float := fold_left PrimFloat.add xs 0.

(** [x ** 2], after CPython's [float_pow]: NaN, the infinities and the
    zeros are answered before libm is called; otherwise libm's [pow] is
    called, taken here as the correctly rounded square, and a result that
    overflows raises [OverflowError] (an underflow to zero does not). *)
Definition float_pow_2 (x : float) : result float :=
  if is_nan x then Ok x
  else if is_infinity x then Ok (PrimFloat.abs x)
  else if x =? 0 then Ok 0
  else
    let y := x * x in
    if is_infinity y then Raise OverflowError else Ok y.

(** [x ** 0.5], after the same function: NaN, the infinities and the zeros
    first, then libm's [pow], taken as the correctly rounded square root.
    For a negative finite [x] Python answers a complex number; the operand
    here is a variance, which is never negative ([variance_sign]). *)
Definition float_pow_half (x : float) : float :=
  if is_nan x then x
  else if is_infinity x then PrimFloat.abs x
  else if x =? 0 then 0
  else PrimFloat.sqrt x.

(** [sum(f(p) for p in xs)] continued from the partial sum [acc]: the
    generator is consumed item by item, and an exception in [f] ends it. *)
Fixpoint sum_gen (f : float -> result float) (xs : list float) (acc : float)
  : result float :=
  match xs with
  | [] => Ok acc
  | p :: rest =>
      match f p with
      | Ok y => sum_gen f rest (acc + y)
      | Raise e => Raise e
      end
  end.

(** Lines 105-109. *)
Definition calculate_percentage_change (old_price new_price : float) : float :=
  if old_price =? 0 then 0
  else ((new_price - old_price) / old_price) * 100.

End PyFloat.

(** ** Python sequences *)

(** [l[start:]] for an integer [start] of either sign. *)
Definition py_slice_from {A} (start : Z) (l : list A) : list A :=
  let n := Z.of_nat (length l) in
  let lo := if (start <? 0)%Z then Z.max (start + n) 0 else Z.min start n in
  drop (Z.to_nat lo) l.

(** ** JSON documents and the configuration (lines 33-63) *)

Inductive json :=
| JNull
| JBool (b : bool)
| JInt (z : Z)
| JFloat (f : float)
| JString (s : string)
| JArray (l : list json)
| JObject (o : gmap string json).

(** [d.update(other)]: every key of [other] is set in [d]; a value that is
    itself a dictionary replaces the old one as a whole. *)
Definition dict_update (d other : gmap string json) : gmap string json :=
  other ∪ d.

Definition default_config : gmap string json :=
  {[ "coins" := JObject
       {[ "bitcoin" := JString "BTC";
          "ethereum" := JString "ETH";
          "solana" := JString "SOL";
          "cardano" := JString "ADA";
          "polkadot" := JString "DOT" ]};
     "thresholds" := JObject
       {[ "drop_alert" := JFloat (-5.0)%float;
          "surge_alert" := JFloat 10.0%float;
          "volatility_window" := JInt 24 ]};
     "check_interval" := JInt 300;
     "enable_surge_alerts" := JBool true;
     "enable_volatility_tracking" := JBool true;
     "max_history_length" := JInt 288 ]}.

(** [load_config].  The argument is what the file holds: [None] when there
    is no file, or opening or parsing it raises (the defaults are returned
    untouched), [Some o] when it parses to the JSON object [o].  A file that
    parses to a JSON value other than an object is not covered. *)
Definition load_config (file : option (gmap string json)) : gmap string json :=
  match file with
  | Some loaded_config => dict_update default_config loaded_config
  | None => default_config
  end.

(** [config[k1][k2]]: [None] where Python raises [KeyError] (or the outer
    value is no dictionary). *)
Definition config_get2 (config : gmap string json) (k1 k2 : string) : option json :=
  match config !! k1 with
  | Some (JObject o) => o !! k2
  | _ => None
  end.

(** The configuration as the methods read it. *)
Record Thresholds := {
  drop_alert : float;
  surge_alert : float;
  volatility_window : Z
}.

Record Config := {
  coins : gmap string json;
  thresholds : Thresholds;
  check_interval : Z;
  enable_surge_alerts : bool;
  enable_volatility_tracking : bool;
  max_history_length : Z
}.

Definition as_float (j : json) : option float :=
  match j with
  | JFloat f => Some f
  | JInt z => Some (float_of_int z)
  | _ => None
  end.

Definition as_int (j : json) : option Z :=
  match j with JInt z => Some z | _ => None end.

Definition as_bool (j : json) : option bool :=
  match j with JBool b => Some b | _ => None end.

Definition as_object (j : json) : option (gmap string json) :=
  match j with JObject o => Some o | _ => None end.

(** Every subscript the agent applies to [self.config], gathered: [None]
    when one of them would raise [KeyError], or finds a value of another
    JSON type than the methods compute with. *)
Definition read_config (config : gmap string json) : option Config :=
  cs ← config !! "coins" ≫= as_object;
  d ← config_get2 config "thresholds" "drop_alert" ≫= as_float;
  s ← config_get2 config "thresholds" "surge_alert" ≫= as_float;
  w ← config_get2 config "thresholds" "volatility_window" ≫= as_int;
  ci ← config !! "check_interval" ≫= as_int;
  es ← config !! "enable_surge_alerts" ≫= as_bool;
  ev ← config !! "enable_volatility_tracking" ≫= as_bool;
  ml ← config !! "max_history_length" ≫= as_int;
  Some {| coins := cs;
          thresholds := {| drop_alert := d; surge_alert := s; volatility_window := w |};
          check_interval := ci;
          enable_surge_alerts := es;
          enable_volatility_tracking := ev;
          max_history_length := ml |}.

(** ** The agent's state (lines 24-31) *)

Record PriceEntry := {
  price : float;
  timestamp : string
}.

Inductive SignalType := SELL_SIGNAL | BUY_SIGNAL | VOLATILITY_ALERT.

Inductive Strength := STRONG | MODERATE | WARNING.

(** The three f-strings of a signal's ['reason'], kept as their template
    and the number they format; rendering it to two decimals is
    presentation. *)
Inductive Reason :=
| PriceDropped (change : float)
| PriceSurged (change : float)
| HighVolatility (volatility : float).

Record Signal := {
  type : SignalType;
  coin : string;
  reason : Reason;
  old_price : float;
  new_price : float;
  change : float;
  volatility : float;
  signal_timestamp : string;
  strength : Strength
}.

Record State := {
  previous_prices : gmap string float;
  price_history : gmap string (list PriceEntry);
  signals_generated : list Signal;
  last_check : option string;
  total_alerts : Z;
  agent_start_time : string
}.

Definition set_price_history (st : State) (h : gmap string (list PriceEntry)) : State :=
  {| previous_prices := previous_prices st;
     price_history := h;
     signals_generated := signals_generated st;
     last_check := last_check st;
     total_alerts := total_alerts st;
     agent_start_time := agent_start_time st |}.

(** Lines 205-207 on the state: the signal is appended to the log and the
    counter goes up by one. *)
Definition log_signal (st : State) (signal : Signal) : State :=
  {| previous_prices := previous_prices st;
     price_history := price_history st;
     signals_generated := signals_generated st ++ [signal];
     last_check := last_check st;
     total_alerts := total_alerts st + 1;
     agent_start_time := agent_start_time st |}.

(** Lines 305-306. *)
Definition finish_cycle (st : State) (current_prices : list (string * float))
    (now : string) : State :=
  {| previous_prices := list_to_map current_prices;
     price_history := price_history st;
     signals_generated := signals_generated st;
     last_check := Some now;
     total_alerts := total_alerts st;
     agent_start_time := agent_start_time st |}.

(** ** The price history (lines 111-127) *)

(** Lines 124-127: the trim of one ticker's history. *)
Definition trim_history (max_len : Z) (h : list PriceEntry) : list PriceEntry :=
  if (Z.of_nat (length h) >? max_len)%Z then py_slice_from (- max_len) h else h.

(** The body of the loop of [update_price_history] for one item. *)
Definition record_price (max_len : Z) (now : string)
    (history : gmap string (list PriceEntry)) (item : string * float)
  : gmap string (list PriceEntry) :=
  let '(ticker, p) := item in
  let h := default [] (history !! ticker) in
  <[ticker := trim_history max_len (h ++ [{| price := p; timestamp := now |}])]> history.

Definition update_price_history (cfg : Config) (now : string)
    (current_prices : list (string * float)) (st : State) : State :=
  set_price_history st
    (fold_left (record_price (max_history_length cfg) now) current_prices
       (price_history st)).

(** ** Volatility (lines 129-144) *)

Definition calculate_volatility (st : State) (ticker : string) : result float :=
  match price_history st !! ticker with
  | None => Ok 0%float
  | Some h =>
      if (length h <? 2)%nat then Ok 0%float
      else
        let prices := map price h in
        let avg_price := (py_sum prices / float_of_len (length prices))%float in
        if (avg_price =? 0)%float then Ok 0%float
        else
          match sum_gen (fun p => float_pow_2 (p - avg_price)%float) prices 0%float with
          | Raise e => Raise e
          | Ok total =>
              let variance := (total / float_of_len (length prices))%float in
              let std_dev := float_pow_half variance in
              Ok ((std_dev / avg_price) * 100)%float
          end
  end.

(** ** Signals (lines 146-209) *)

(** Lines 160-202: the [if]/[elif] chain that builds at most one signal
    from the old and the new price, the change and the volatility.  [now]
    is the clock reading taken when the signal is built. *)
Definition build_signal (cfg : Config) (ticker : string)
    (old new chg vol : float) (now : string) : option Signal :=
  if (chg <=? drop_alert (thresholds cfg))%float then
    Some {| type := SELL_SIGNAL; coin := ticker; reason := PriceDropped chg;
            old_price := old; new_price := new; change := chg; volatility := vol;
            signal_timestamp := now;
            strength := if (chg <=? -10)%float then STRONG else MODERATE |}
  else if enable_surge_alerts cfg && (surge_alert (thresholds cfg) <=? chg)%float then
    Some {| type := BUY_SIGNAL; coin := ticker; reason := PriceSurged chg;
            old_price := old; new_price := new; change := chg; volatility := vol;
            signal_timestamp := now;
            strength := if (20 <=? chg)%float then STRONG else MODERATE |}
  else if enable_volatility_tracking cfg && (15 <? vol)%float then
    Some {| type := VOLATILITY_ALERT; coin := ticker; reason := HighVolatility vol;
            old_price := old; new_price := new; change := chg; volatility := vol;
            signal_timestamp := now;
            strength := WARNING |}
  else None.

(** What a call leaves behind: the state, the local list [signals], and
    the exception if one ended the call (the list is then not returned). *)
Record Generated := {
  state_after : State;
  signals : list Signal;
  raised : option exn
}.

(** Lines 153-207: the loop over the fetched tickers, from the state [st]
    and the signals [acc] built so far. *)
Fixpoint signals_loop (cfg : Config) (now : string -> string)
    (items : list (string * float)) (st : State) (acc : list Signal) : Generated :=
  match items with
  | [] => {| state_after := st; signals := acc; raised := None |}
  | (ticker, new) :: rest =>
      match previous_prices st !! ticker with
      | None => signals_loop cfg now rest st acc
      | Some old =>
          let chg := calculate_percentage_change old new in
          match calculate_volatility st ticker with
          | Raise e => {| state_after := st; signals := acc; raised := Some e |}
          | Ok vol =>
              match build_signal cfg ticker old new chg vol (now ticker) with
              | Some signal =>
                  signals_loop cfg now rest (log_signal st signal) (acc ++ [signal])
              | None => signals_loop cfg now rest st acc
              end
          end
      end
  end.

(** [now ticker] is the reading of the clock when the signal of [ticker]
    is built. *)
Definition generate_trading_signals (cfg : Config) (now : string -> string)
    (current_prices : list (string * float)) (st : State) : Generated :=
  if decide (previous_prices st = ∅) then
    {| state_after := st; signals := []; raised := None |}
  else signals_loop cfg now current_prices st [].

(** The value the call returns, if it returns. *)
Definition returned (g : Generated) : option (list Signal) :=
  match raised g with
  | None => Some (signals g)
  | Some _ => None
  end.

(** ** One pass of the loop of [run_agent] (lines 286-322) *)

(** What the environment supplies to one pass: the result of
    [get_current_prices] ([None] when the request failed) and the clock
    readings of the pass. *)
Record Tick := {
  fetched : option (list (string * float));
  now_history : string;
  now_signal : string -> string;
  now_check : string
}.

(** A pass either leaves the loop running or ends it through the handler
    of line 336, which keeps the state as the exception left it. *)
Inductive Pass :=
| Continue (st : State)
| Crash (e : exn) (st : State).

(** [display_status] recomputes the volatility of the same tickers on the
    same history, so it raises nothing that [generate_trading_signals] has
    not raised before it. *)
Definition run_cycle (cfg : Config) (tick : Tick) (st : State) : Pass :=
  match fetched tick with
  | Some ((_ :: _) as current_prices) =>
      let st1 := update_price_history cfg (now_history tick) current_prices st in
      let g := generate_trading_signals cfg (now_signal tick) current_prices st1 in
      match raised g with
      | Some e => Crash e (state_after g)
      | None => Continue (finish_cycle (state_after g) current_prices (now_check tick))
      end
  | _ => Continue st
  end.

(** The loop over the passes made before the interrupt of line 324. *)
Fixpoint run_agent (cfg : Config) (ticks : list Tick) (st : State) : State :=
  match ticks with
  | [] => st
  | tick :: rest =>
      match run_cycle cfg tick st with
      | Continue st' => run_agent cfg rest st'
      | Crash _ st' => st'
      end
  end.

(** ** Vocabulary of the statements *)

(** The history stored for a ticker, oldest first; none for an unseen one. *)
Definition stored_history (st : State) (ticker : string) : list PriceEntry :=
  default [] (price_history st !! ticker).

(** Its prices. *)
Definition observations (st : State) (ticker : string) : list float :=
  map price (stored_history st ticker).

(** The statistics of section 4.2 of the specification, in its words: the
    arithmetic mean of the stored prices, and the population variance (the
    sum of the squared deviations divided by the count, not by the count
    less one). *)
Definition arithmetic_mean (prices : list float) : float :=
  (py_sum prices / float_of_len (length prices))%float.

Definition squared_deviations (prices : list float) : result float :=
  sum_gen (fun p => float_pow_2 (p - arithmetic_mean prices)%float) prices 0%float.

Definition coefficient_of_variation (prices : list float) : result float :=
  match squared_deviations prices with
  | Ok total =>
      let population_variance := (total / float_of_len (length prices))%float in
      Ok ((float_pow_half population_variance / arithmetic_mean prices) * 100)%float
  | Raise e => Raise e
  end.

(** A float that is neither NaN nor infinite. *)
Definition finite (x : float) : bool :=
  match Prim2SF x with
  | S754_zero _ | S754_finite _ _ _ => true
  | _ => false
  end.

(** NaN, or a value whose sign bit is clear. *)
Definition sign_clear (x : spec_float) : bool :=
  match x with
  | S754_nan => true
  | S754_zero s | S754_infinity s | S754_finite s _ _ => negb s
  end.

(** Any float but NaN. *)
Definition a_number (x : spec_float) : bool :=
  match x with S754_nan => false | _ => true end.

(** No float below zero: NaN, a zero of either sign, or a positive value. *)
Definition never_negative (x : spec_float) : bool :=
  match x with
  | S754_zero _ => true
  | _ => sign_clear x
  end.

(** The last [k] items of a list. *)
Definition last_n {A} (k : nat) (l : list A) : list A :=
  drop (length l - k) l.

(** The signal the loop builds for one fetched item on the state [st], if
    it builds one. *)
Definition item_signal (cfg : Config) (now : string -> string) (st : State)
    (item : string * float) : option Signal :=
  old ← previous_prices st !! item.1;
  match calculate_volatility st item.1 with
  | Ok vol =>
      build_signal cfg item.1 old item.2
        (calculate_percentage_change old item.2) vol (now item.1)
  | Raise _ => None
  end.

(** The observations a run of updates records for a ticker, in order. *)
Definition recorded (ticker : string)
    (updates : list (string * list (string * float))) : list PriceEntry :=
  omap (fun u : string * list (string * float) =>
          (fun p => {| price := p; timestamp := u.1 |}) <$>
            (list_to_map u.2 : gmap string float) !! ticker)
       updates.

Definition update_all (cfg : Config)
    (updates : list (string * list (string * float))) (st : State) : State :=
  fold_left (fun s (u : string * list (string * float)) =>
               update_price_history cfg u.1 u.2 s) updates st.

(** Logging a signal touches neither the prices nor the history, so the
    loop reads the same market on every round. *)
Definition same_market (st st' : State) : Prop :=
  previous_prices st' = previous_prices st /\ price_history st' = price_history st.

(** ** Sample data *)

Definition empty_state : State :=
  {| previous_prices := ∅; price_history := ∅; signals_generated := [];
     last_check := None; total_alerts := 0; agent_start_time := "2024-01-01T00:00:00" |}.

Definition history_of (prices : list float) : list PriceEntry :=
  map (fun p => {| price := p; timestamp := "2024-01-01T00:05:00" |}) prices.

(** A state that stores the given prices for one ticker and nothing else. *)
Definition state_with_history (ticker : string) (prices : list float) : State :=
  set_price_history empty_state {[ ticker := history_of prices ]}.

(** The defaults of [load_config], as the methods read them. *)
Definition default_settings : Config :=
  {| coins := {[ "bitcoin" := JString "BTC";
                 "ethereum" := JString "ETH";
                 "solana" := JString "SOL";
                 "cardano" := JString "ADA";
                 "polkadot" := JString "DOT" ]};
     thresholds := {| drop_alert := (-5.0)%float;
                      surge_alert := 10.0%float;
                      volatility_window := 24 |};
     check_interval := 300;
     enable_surge_alerts := true;
     enable_volatility_tracking := true;
     max_history_length := 288 |}.

(** The defaults with a history cap of zero. *)
Definition zero_cap_settings : Config :=
  {| coins := coins default_settings;
     thresholds := thresholds default_settings;
     check_interval := check_interval default_settings;
     enable_surge_alerts := enable_surge_alerts default_settings;
     enable_volatility_tracking := enable_volatility_tracking default_settings;
     max_history_length := 0 |}.

(** A configuration file that sets one threshold and nothing else. *)
Definition partial_thresholds_file : gmap string json :=
  {[ "thresholds" := JObject {[ "drop_alert" := JFloat (-3.0)%float ]} ]}.

Definition noon (ticker : string) : string := "2024-01-01T12:00:00".

(** A pass that fetched the given prices. *)
Definition fetch_of (current_prices : list (string * float)) : Tick :=
  {| fetched := Some current_prices;
     now_history := "2024-01-01T12:00:00";
     now_signal := noon;
     now_check := "2024-01-01T12:00:01" |}.

(** A pass whose request failed. *)
Definition failed_fetch : Tick :=
  {| fetched := None;
     now_history := "2024-01-01T12:05:00";
     now_signal := noon;
     now_check := "2024-01-01T12:05:01" |}.

(** A state that saw the given prices in its last pass. *)
Definition state_after_prices (prices : list (string * float)) : State :=
  finish_cycle
    (update_price_history default_settings "2024-01-01T11:55:00" prices empty_state)
    prices "2024-01-01T11:55:01".


(** ** Fetching (lines 83-103) *)

(** [d[k] = v] on a dictionary kept as the list of its items: a key that
    is present keeps its place and takes the new value, a new key goes to
    the end. *)
Fixpoint dict_set {A} (d : list (string * A)) (k : string) (v : A)
  : list (string * A) :=
  match d with
  | [] => [(k, v)]
  | (k', v') :: rest =>
      if decide (k' = k) then (k, v) :: rest else (k', v') :: dict_set rest k v
  end.

(** Lines 95-97: the loop over the configured coins, in the order of the
    configuration, from the prices collected so far.  [data] is the parsed
    response, coin id to currency to price; [None] is the [KeyError] of
    [data[coin_id]['usd']], which the handler of line 101 turns into the
    result [None]. *)
Fixpoint collect_prices (coins : list (string * string))
    (data : gmap string (gmap string float))
    (current_prices : list (string * float)) : option (list (string * float)) :=
  match coins with
  | [] => Some current_prices
  | (coin_id, ticker) :: rest =>
      match data !! coin_id with
      | None => collect_prices rest data current_prices
      | Some quote =>
          match quote !! "usd" with
          | None => None
          | Some p => collect_prices rest data (dict_set current_prices ticker p)
          end
      end
  end.

(** [get_current_prices], after the request: [coins] are the items of
    [config['coins']] in their order, and [response] is the parsed answer,
    [None] when the request or its parsing raised. *)
Definition get_current_prices (coins : list (string * string))
    (response : option (gmap string (gmap string float)))
  : option (list (string * float)) :=
  match response with
  | Some data => collect_prices coins data []
  | None => None
  end.

(** The pass that a response leads to. *)
Definition tick_of_response (coins : list (string * string))
    (response : option (gmap string (gmap string float)))
    (now_h : string) (now_s : string -> string) (now_c : string) : Tick :=
  {| fetched := get_current_prices coins response;
     now_history := now_h; now_signal := now_s; now_check := now_c |}.

(** ** The status display (lines 211-236) *)

Inductive Direction := UP | DOWN | FLAT.

(** One printed line per fetched ticker: with the change and the
    volatility when the ticker has a previous price, "Initializing..."
    otherwise.  The numbers are kept as they are; their rendering is
    presentation. *)
Inductive StatusLine :=
| Priced (ticker : string) (p : float) (direction : Direction) (chg vol : float)
| Initializing (ticker : string) (p : float).

(** Lines 227-232. *)
Definition direction_of (chg : float) : Direction :=
  if (0 <? chg)%float then UP
  else if (chg <? 0)%float then DOWN
  else FLAT.

(** Lines 219-236: the lines the call has printed when it returns, one per
    fetched ticker in the order of the fetched map (the three header lines
    print fields of the state as they are). *)
Fixpoint display_status (current_prices : list (string * float)) (st : State)
  : result (list StatusLine) :=
  match current_prices with
  | [] => Ok []
  | (ticker, p) :: rest =>
      match previous_prices st !! ticker with
      | Some old =>
          let chg := calculate_percentage_change old p in
          match calculate_volatility st ticker with
          | Raise e => Raise e
          | Ok vol =>
              match display_status rest st with
              | Ok lines => Ok (Priced ticker p (direction_of chg) chg vol :: lines)
              | Raise e => Raise e
              end
          end
      | None =>
          match display_status rest st with
          | Ok lines => Ok (Initializing ticker p :: lines)
          | Raise e => Raise e
          end
      end
  end.

(** ** The summary (lines 257-274) *)

(** The string a signal carries as its ['type']. *)
Definition type_name (t : SignalType) : string :=
  match t with
  | SELL_SIGNAL => "SELL_SIGNAL"
  | BUY_SIGNAL => "BUY_SIGNAL"
  | VOLATILITY_ALERT => "VOLATILITY_ALERT"
  end.

(** Lines 270-271. *)
Definition count_signal (signal_types : gmap string nat) (signal : Signal)
  : gmap string nat :=
  <[type_name (type signal) :=
      default 0 (signal_types !! type_name (type signal)) + 1]> signal_types.

(** The summary without its uptime, which is clock arithmetic. *)
Record Summary := {
  total_signals : Z;
  monitored_coins : nat;
  summary_check_interval : Z;
  summary_last_check : option string;
  signal_breakdown : gmap string nat
}.

Definition get_agent_summary (cfg : Config) (st : State) : Summary :=
  {| total_signals := total_alerts st;
     monitored_coins := size (coins cfg);
     summary_check_interval := check_interval cfg;
     summary_last_check := last_check st;
     signal_breakdown := fold_left count_signal (signals_generated st) ∅ |}.

(** ** More vocabulary *)

#[global] Instance SignalType_eq_dec : EqDecision SignalType.
Proof. solve_decision. Defined.

(** The number of logged signals of one type. *)
Definition signals_of_type (t : SignalType) (log : list Signal) : nat :=
  length (filter (fun s => type s = t) log).

(** The state a pass ends in. *)
Definition pass_state (pass : Pass) : State :=
  match pass with
  | Continue st => st
  | Crash _ st => st
  end.

(** The counter counts the log. *)
Definition alerts_counted (st : State) : Prop :=
  total_alerts st = Z.of_nat (length (signals_generated st)).

(** The price a response quotes for a configured coin, with its ticker. *)
Definition quoted (data : gmap string (gmap string float))
    (coin : string * string) : option (string * float) :=
  quote ← data !! coin.1; p ← quote !! "usd"; Some (coin.2, p).

(** What a signal says about itself agrees with the tests that built it:
    its type with the thresholds and switches of the configuration, its
    reason and strength with its type, change and volatility. *)
Definition signal_justified (cfg : Config) (s : Signal) : Prop :=
  match type s with
  | SELL_SIGNAL =>
      (change s <=? drop_alert (thresholds cfg))%float = true /\
      reason s = PriceDropped (change s) /\
      strength s = (if (change s <=? -10)%float then STRONG else MODERATE)
  | BUY_SIGNAL =>
      (change s <=? drop_alert (thresholds cfg))%float = false /\
      enable_surge_alerts cfg = true /\
      (surge_alert (thresholds cfg) <=? change s)%float = true /\
      reason s = PriceSurged (change s) /\
      strength s = (if (20 <=? change s)%float then STRONG else MODERATE)
  | VOLATILITY_ALERT =>
      (change s <=? drop_alert (thresholds cfg))%float = false /\
      enable_surge_alerts cfg
        && (surge_alert (thresholds cfg) <=? change s)%float = false /\
      enable_volatility_tracking cfg = true /\
      (15 <? volatility s)%float = true /\
      reason s = HighVolatility (volatility s) /\
      strength s = WARNING
  end.

(** The coins of the default configuration, in their order. *)
Definition default_coins : list (string * string) :=
  [("bitcoin", "BTC"); ("ethereum", "ETH"); ("solana", "SOL");
   ("cardano", "ADA"); ("polkadot", "DOT")].

(** The keys of the configuration that the methods read. *)
Definition documented_keys : list string :=
  ["coins"; "thresholds"; "check_interval"; "enable_surge_alerts";
   "enable_volatility_tracking"; "max_history_length"].

(** ** The volatility on any platform (lines 129-144)

    Three operations of [calculate_volatility] are not fixed by IEEE 754:
    [sum], which adds from left to right before CPython 3.12 and
    compensates the rounding errors since, and [** 2] and [** 0.5], which
    CPython hands to libm's [pow] once its own special cases are answered;
    [pow] is correctly rounded on no common platform.  A [Platform] supplies
    the three, and [calculate_volatility_on] is the method over it. *)
Record Platform := {
  sum_floats : list float -> float;
  pow_2 : float -> result float;
  pow_half : float -> float
}.

(** The items of the generator [f(p) for p in xs] as [sum] receives them:
    an exception in [f] ends the generator, and the [sum] with it. *)
Fixpoint gen_items (f : float -> result float) (xs : list float)
  : result (list float) :=
  match xs with
  | [] => Ok []
  | p :: rest =>
      match f p with
      | Ok y =>
          match gen_items f rest with
          | Ok ys => Ok (y :: ys)
          | Raise e => Raise e
          end
      | Raise e => Raise e
      end
  end.

Definition calculate_volatility_on (pf : Platform) (st : State) (ticker : string)
  : result float :=
  match price_history st !! ticker with
  | None => Ok 0%float
  | Some h =>
      if (length h <? 2)%nat then Ok 0%float
      else
        let prices := map price h in
        let avg_price := (sum_floats pf prices / float_of_len (length prices))%float in
        if (avg_price =? 0)%float then Ok 0%float
        else
          match gen_items (fun p => pow_2 pf (p - avg_price)%float) prices with
          | Raise e => Raise e
          | Ok squares =>
              let variance :=
                (sum_floats pf squares / float_of_len (length prices))%float in
              let std_dev := pow_half pf variance in
              Ok ((std_dev / avg_price) * 100)%float
          end
  end.

(** The mean of the prices as the platform computes it. *)
Definition computed_mean (pf : Platform) (prices : list float) : float :=
  (sum_floats pf prices / float_of_len (length prices))%float.

(** What holds of the three operations on every platform.  CPython's
    [float_pow] answers a base of [0] with [0.0] and a base of [1] or [-1]
    (under an exponent that is no odd integer) with [1.0] before libm is
    called; and a sum of zeros, plain or compensated, is zero. *)
Definition cpython_special_cases (pf : Platform) : Prop :=
  pow_2 pf 0%float = Ok 0%float /\
  pow_2 pf 1%float = Ok 1%float /\
  pow_2 pf (-1)%float = Ok 1%float /\
  pow_half pf 0%float = 0%float /\
  pow_half pf 1%float = 1%float /\
  forall n, sum_floats pf (replicate n 0%float) = 0%float.

(** The platform of [calculate_volatility] above: the plain sum and a
    correctly rounding [pow]. *)
Definition correctly_rounded : Platform :=
  {| sum_floats := py_sum; pow_2 := float_pow_2; pow_half := float_pow_half |}.

(** * Facts about binary64 arithmetic *)

Section FloatFacts.
Local Open Scope float_scope.

Lemma SFcompare_refl_finite s m e :
  SFcompare (S754_finite s m e) (S754_finite s m e) = Some Eq.
Proof.
  simpl. rewrite Z.compare_refl, Pos.compare_cont_refl. by destruct s.
Qed.

Lemma is_nan_spec x :
  is_nan x = match Prim2SF x with S754_nan => true | _ => false end.
Proof.
  unfold is_nan. rewrite FloatAxioms.eqb_spec. unfold SFeqb.
  destruct (Prim2SF x) as [[]|[]| |s m e]; try reflexivity.
  by rewrite SFcompare_refl_finite.
Qed.

Lemma is_infinity_spec x :
  is_infinity x = match Prim2SF x with S754_infinity _ => true | _ => false end.
Proof.
  unfold is_infinity. rewrite FloatAxioms.eqb_spec, FloatAxioms.abs_spec.
  change (Prim2SF infinity) with (S754_infinity false).
  by destruct (Prim2SF x) as [[]|[]| |[] m e].
Qed.

Lemma eqb_zero_spec x :
  (x =? 0) = match Prim2SF x with S754_zero _ => true | _ => false end.
Proof.
  rewrite FloatAxioms.eqb_spec. change (Prim2SF 0) with (S754_zero false).
  by destruct (Prim2SF x) as [[]|[]| |[] m e].
Qed.

Lemma leb_zero_spec x :
  (0 <=? x) = match Prim2SF x with
              | S754_zero _ => true
              | S754_infinity s | S754_finite s _ _ => negb s
              | S754_nan => false
              end.
Proof.
  rewrite FloatAxioms.leb_spec. change (Prim2SF 0) with (S754_zero false).
  by destruct (Prim2SF x) as [[]|[]| |[] m e].
Qed.

Lemma ltb_zero_spec x :
  (0 <? x) = match Prim2SF x with
             | S754_infinity s | S754_finite s _ _ => negb s
             | _ => false
             end.
Proof.
  rewrite FloatAxioms.ltb_spec. change (Prim2SF 0) with (S754_zero false).
  by destruct (Prim2SF x) as [[]|[]| |[] m e].
Qed.

(** [x - x] is [+0] for every finite [x]. *)
Lemma sub_diag_finite x : finite x = true -> (x - x) = 0.
Proof.
  unfold finite. intros Hx. apply Prim2SF_inj. rewrite FloatAxioms.sub_spec.
  change (Prim2SF 0) with (S754_zero false).
  destruct (Prim2SF x) as [[]|[]| |s m e]; try done.
  unfold SF64sub, SFsub. by rewrite Z.sub_diag.
Qed.

(** Two floats that compare equal, one of them finite and not zero, are
    the same float. *)
Lemma eqb_finite_eq x y s m e :
  Prim2SF y = S754_finite s m e -> (x =? y) = true -> x = y.
Proof.
  intros Hy. rewrite FloatAxioms.eqb_spec, Hy. unfold SFeqb. intros H.
  apply Prim2SF_inj. rewrite Hy.
  destruct (Prim2SF x) as [[]|[]| |s' m' e']; try done; try by destruct s.
  simpl in H.
  assert (s' = s /\ e' = e /\ m' = m) as (-> & -> & ->); [|done].
  destruct s', s; try done;
    (destruct (Z.compare_spec e' e); try done);
    rewrite Pos.compare_cont_spec in H; simpl in H;
    (destruct (Pos.compare_spec m' m); try done); by subst.
Qed.

(** Rounding keeps the sign it is given. *)
Lemma binary_round_aux_sign m e l :
  sign_clear (binary_round_aux prec emax false m e l) = true.
Proof.
  unfold binary_round_aux.
  destruct (shr_fexp _ _ _ _ _) as [mrs' e'].
  destruct (shr_fexp _ _ _ _ _) as [mrs'' e''].
  destruct (shr_m mrs''); [done| |done].
  by destruct (_ <=? _)%Z.
Qed.

Lemma binary_normalize_sign z e :
  (0 <= z)%Z -> sign_clear (binary_normalize prec emax z e false) = true.
Proof.
  intros Hz. destruct z as [|p|p]; [done| |lia].
  simpl. unfold binary_round. destruct (shl_align _ _ _).
  apply binary_round_aux_sign.
Qed.

Lemma SFmul_sign x y :
  sign_clear x = true -> sign_clear y = true -> sign_clear (SF64mul x y) = true.
Proof.
  destruct x as [[]|[]| |[] ? ?], y as [[]|[]| |[] ? ?]; try done.
  intros _ _. apply binary_round_aux_sign.
Qed.

Lemma SFmul_diag_sign x : sign_clear (SF64mul x x) = true.
Proof.
  destruct x as [[]|[]| |[] ? ?]; try done; apply binary_round_aux_sign.
Qed.

Lemma SFdiv_sign x y :
  sign_clear x = true -> sign_clear y = true -> sign_clear (SF64div x y) = true.
Proof.
  destruct x as [[]|[]| |[] ? ?], y as [[]|[]| |[] ? ?]; try done.
  intros _ _. unfold SF64div, SFdiv.
  destruct (SFdiv_core_binary _ _ _ _ _ _) as [[mz ez] lz].
  apply binary_round_aux_sign.
Qed.

Lemma SFadd_sign x y :
  sign_clear x = true -> never_negative y = true -> sign_clear (SF64add x y) = true.
Proof.
  destruct x as [[]|[]| |[] mx ex], y as [[]|[]| |[] my ey]; try done.
  intros _ _. unfold SF64add, SFadd.
  apply binary_normalize_sign. simpl. lia.
Qed.

Lemma SFsqrt_sign x : sign_clear x = true -> sign_clear (SF64sqrt x) = true.
Proof.
  destruct x as [[]|[]| |[] mx ex]; try done.
  intros _. unfold SF64sqrt, SFsqrt.
  destruct (SFsqrt_core_binary _ _ _ _) as [[mz ez] lz].
  apply binary_round_aux_sign.
Qed.

Lemma float_of_len_sign n : sign_clear (Prim2SF (float_of_len n)) = true.
Proof.
  unfold float_of_len. rewrite FloatAxioms.of_uint63_spec.
  apply binary_normalize_sign. apply Uint63.to_Z_bounded.
Qed.

Lemma never_negative_leb x :
  never_negative (Prim2SF x) = true -> is_nan x = true \/ (0 <=? x) = true.
Proof.
  rewrite is_nan_spec, leb_zero_spec.
  destruct (Prim2SF x) as [[]|[]| |[] ? ?]; auto.
Qed.

Lemma leb_never_negative x :
  (0 <=? x) = true -> never_negative (Prim2SF x) = true.
Proof.
  rewrite leb_zero_spec. by destruct (Prim2SF x) as [[]|[]| |[] ? ?].
Qed.

Lemma sign_clear_never_negative x : sign_clear x = true -> never_negative x = true.
Proof. by destruct x as [[]|[]| |[] ? ?]. Qed.

End FloatFacts.

(** * Percentage change and volatility *)

Section Statistics.
Local Open Scope float_scope.

Lemma finite_positive_spec x :
  finite x = true -> (0 <? x) = true -> exists m e, Prim2SF x = S754_finite false m e.
Proof.
  unfold finite. rewrite ltb_zero_spec.
  destruct (Prim2SF x) as [[]|[]| |[] m e]; try done. eauto.
Qed.

Lemma finite_nonzero_spec x :
  finite x = true -> (x =? 0) = false -> exists s m e, Prim2SF x = S754_finite s m e.
Proof.
  unfold finite. rewrite eqb_zero_spec.
  destruct (Prim2SF x) as [[]|[]| |s m e]; try done. eauto.
Qed.

(** A zero divided by a finite value other than zero, then scaled, is a
    zero. *)
Lemma zero_ratio_percent z sz y s m e :
  Prim2SF z = S754_zero sz -> Prim2SF y = S754_finite s m e ->
  ((z / y) * 100 =? 0) = true.
Proof.
  intros Hz Hy. rewrite eqb_zero_spec, FloatAxioms.mul_spec, FloatAxioms.div_spec, Hz, Hy.
  change (Prim2SF 100) with (S754_finite false 7036874417766400 (-46)).
  reflexivity.
Qed.

(** A finite quotient other than zero has a finite divisor other than
    zero. *)
Lemma finite_quotient_divisor x y s m e :
  Prim2SF (x / y) = S754_finite s m e ->
  exists s' m' e', Prim2SF y = S754_finite s' m' e'.
Proof.
  rewrite FloatAxioms.div_spec.
  destruct (Prim2SF x) as [[]|[]| |[] ? ?], (Prim2SF y) as [[]|[]| |sy my ey];
    try done; eauto.
Qed.

Lemma calculate_volatility_short st ticker :
  (length (observations st ticker) < 2)%nat ->
  calculate_volatility st ticker = Ok 0.
Proof.
  unfold observations, stored_history, calculate_volatility. rewrite length_map.
  destruct (price_history st !! ticker) as [h|]; [|done]. simpl. intros Hlen.
  by destruct (Nat.ltb_spec (length h) 2); [|lia].
Qed.

Lemma calculate_volatility_long st ticker :
  (2 <= length (observations st ticker))%nat ->
  calculate_volatility st ticker =
    if arithmetic_mean (observations st ticker) =? 0 then Ok 0
    else coefficient_of_variation (observations st ticker).
Proof.
  unfold observations, stored_history, calculate_volatility,
    coefficient_of_variation, squared_deviations, arithmetic_mean.
  destruct (price_history st !! ticker) as [h|]; simpl; [|lia].
  rewrite length_map. intros Hlen.
  destruct (Nat.ltb_spec (length h) 2); [lia|].
  destruct (_ =? 0); [done|].
  by destruct (sum_gen _ _ _).
Qed.

End Statistics.

(** * The sign of the volatility *)

Section Signs.
Local Open Scope float_scope.

Lemma py_sum_from_sign xs acc :
  Forall (fun p => (0 <=? p) = true) xs ->
  sign_clear (Prim2SF acc) = true ->
  sign_clear (Prim2SF (fold_left PrimFloat.add xs acc)) = true.
Proof.
  intros Hxs. revert acc. induction Hxs as [|p xs Hp _ IH]; intros acc Hacc; [done|].
  simpl. apply IH. rewrite FloatAxioms.add_spec.
  apply SFadd_sign; [done|]. by apply leb_never_negative.
Qed.

Lemma float_pow_2_sign x y :
  float_pow_2 x = Ok y -> sign_clear (Prim2SF y) = true.
Proof.
  unfold float_pow_2. rewrite is_nan_spec, is_infinity_spec, eqb_zero_spec.
  destruct (Prim2SF x) as [sx|sx| |sx mx ex] eqn:Hx; simpl.
  - by intros [= <-].
  - intros [= <-]. by rewrite FloatAxioms.abs_spec, Hx.
  - intros [= <-]. by rewrite Hx.
  - destruct (is_infinity (x * x)); [done|]. intros [= <-].
    rewrite FloatAxioms.mul_spec. apply SFmul_diag_sign.
Qed.

Lemma sum_gen_sign a xs acc total :
  sum_gen (fun p => float_pow_2 (p - a)) xs acc = Ok total ->
  sign_clear (Prim2SF acc) = true ->
  sign_clear (Prim2SF total) = true.
Proof.
  revert acc. induction xs as [|p xs IH]; intros acc; simpl.
  - by intros [= ->].
  - destruct (float_pow_2 (p - a)) as [y|e] eqn:Hy; [|done].
    intros Hsum Hacc. apply (IH _ Hsum).
    rewrite FloatAxioms.add_spec. apply SFadd_sign; [done|].
    apply sign_clear_never_negative. by apply (float_pow_2_sign (p - a)).
Qed.

Lemma float_pow_half_sign x :
  sign_clear (Prim2SF x) = true -> sign_clear (Prim2SF (float_pow_half x)) = true.
Proof.
  unfold float_pow_half. rewrite is_nan_spec, is_infinity_spec, eqb_zero_spec.
  intros Hx.
  destruct (Prim2SF x) as [sx|sx| |sx mx ex] eqn:Hx'.
  - done.
  - by rewrite FloatAxioms.abs_spec, Hx'.
  - by rewrite Hx'.
  - rewrite FloatAxioms.sqrt_spec, Hx'. by apply SFsqrt_sign.
Qed.

(** The variance of a history, whenever it is computed, is NaN or has a
    clear sign bit: never a negative number, and never [-0]. *)
Lemma variance_sign prices total :
  squared_deviations prices = Ok total ->
  sign_clear (Prim2SF (total / float_of_len (length prices))) = true.
Proof.
  intros Htotal. rewrite FloatAxioms.div_spec.
  apply SFdiv_sign; [|apply float_of_len_sign].
  by apply (sum_gen_sign _ _ _ _ Htotal).
Qed.

Lemma arithmetic_mean_sign prices :
  Forall (fun p => (0 <=? p) = true) prices ->
  sign_clear (Prim2SF (arithmetic_mean prices)) = true.
Proof.
  intros Hp. unfold arithmetic_mean. rewrite FloatAxioms.div_spec.
  apply SFdiv_sign; [|apply float_of_len_sign].
  by apply py_sum_from_sign.
Qed.

Lemma coefficient_of_variation_sign prices v :
  Forall (fun p => (0 <=? p) = true) prices ->
  coefficient_of_variation prices = Ok v ->
  sign_clear (Prim2SF v) = true.
Proof.
  intros Hp. unfold coefficient_of_variation.
  destruct (squared_deviations prices) as [total|e] eqn:Htotal; [|done].
  intros [= <-].
  rewrite FloatAxioms.mul_spec. apply SFmul_sign; [|done].
  rewrite FloatAxioms.div_spec. apply SFdiv_sign.
  - apply float_pow_half_sign. by apply variance_sign.
  - by apply arithmetic_mean_sign.
Qed.

End Signs.

(** * Where NaN cannot come from *)

Section Numbers.
Local Open Scope float_scope.

Lemma shr_1_nonneg mrs : (0 <= shr_m mrs)%Z -> (0 <= shr_m (shr_1 mrs))%Z.
Proof. destruct mrs as [[|[p|p|]|p] r s]; simpl; lia. Qed.

Lemma iter_shr_1_nonneg p mrs :
  (0 <= shr_m mrs)%Z -> (0 <= shr_m (SpecFloat.iter_pos shr_1 p mrs))%Z.
Proof.
  revert mrs. induction p as [p IH|p IH|]; intros mrs Hm; simpl.
  - apply IH, IH. by apply shr_1_nonneg.
  - by apply IH, IH.
  - by apply shr_1_nonneg.
Qed.

Lemma shr_fexp_nonneg m e l :
  (0 <= m)%Z -> (0 <= shr_m (shr_fexp prec emax m e l).1)%Z.
Proof.
  intros Hm. unfold shr_fexp, shr.
  assert (0 <= shr_m (shr_record_of_loc m l))%Z by by destruct l as [|[]].
  destruct (_ - e)%Z; simpl; try done. by apply iter_shr_1_nonneg.
Qed.

Lemma round_nearest_even_nonneg m l :
  (0 <= m)%Z -> (0 <= round_nearest_even m l)%Z.
Proof.
  intros Hm. destruct l as [|[]]; simpl; try lia. destruct (Z.even m); lia.
Qed.

(** Rounding a magnitude gives a zero, a finite value or an infinity. *)
Lemma binary_round_aux_number s m e l :
  (0 <= m)%Z -> a_number (binary_round_aux prec emax s m e l) = true.
Proof.
  intros Hm. unfold binary_round_aux.
  pose proof (shr_fexp_nonneg m e l Hm) as H1.
  destruct (shr_fexp prec emax m e l) as [mrs' e']. simpl in H1.
  pose proof (shr_fexp_nonneg _ e' loc_Exact
                (round_nearest_even_nonneg _ (loc_of_shr_record mrs') H1)) as H2.
  destruct (shr_fexp _ _ _ _ _) as [mrs'' e'']. simpl in H2.
  destruct (shr_m mrs''); [done| |lia].
  by destruct (_ <=? _)%Z.
Qed.

Lemma binary_normalize_number z e :
  a_number (binary_normalize prec emax z e false) = true.
Proof.
  destruct z as [|p|p]; [done| |]; simpl; unfold binary_round;
    destruct (shl_align _ _ _); by apply binary_round_aux_number.
Qed.

Lemma SFadd_number x y :
  sign_clear x = true -> never_negative y = true ->
  a_number x = true -> a_number y = true -> a_number (SF64add x y) = true.
Proof.
  destruct x as [[]|[]| |[] mx ex], y as [[]|[]| |[] my ey]; try done.
  intros _ _ _ _. apply binary_normalize_number.
Qed.

Lemma SFsub_number x y :
  finite x = true -> finite y = true -> a_number (Prim2SF (x - y)) = true.
Proof.
  unfold finite. rewrite FloatAxioms.sub_spec.
  destruct (Prim2SF x) as [[]|[]| |[] mx ex], (Prim2SF y) as [[]|[]| |[] my ey];
    try done; intros _ _; apply binary_normalize_number.
Qed.

Lemma SFmul_number_finite x m e :
  a_number x = true -> a_number (SF64mul x (S754_finite false m e)) = true.
Proof.
  destruct x as [[]|[]| |[] mx ex]; try done; intros _;
    by apply binary_round_aux_number.
Qed.

Lemma SFmul_diag_number x : a_number x = true -> a_number (SF64mul x x) = true.
Proof.
  destruct x as [[]|[]| |[] mx ex]; try done; intros _;
    by apply binary_round_aux_number.
Qed.

Lemma SFdiv_number_finite x s m e :
  a_number x = true -> a_number (SF64div x (S754_finite s m e)) = true.
Proof.
  destruct x as [sx|sx| |sx mx ex]; try done. intros _.
  unfold SF64div, SFdiv, SFdiv_core_binary.
  set (m' := match (_ - _ - _)%Z with 0%Z => _ | Z.pos _ => _ | Z.neg _ => _ end).
  assert (0 <= m')%Z as Hm'.
  { subst m'. destruct (_ - _ - _)%Z; try done. by apply Z.shiftl_nonneg. }
  pose proof (Z.div_pos m' (Z.pos m) Hm' eq_refl) as Hq. unfold Z.div in Hq.
  destruct (Z.div_eucl m' (Z.pos m)) as [q r]. by apply binary_round_aux_number.
Qed.

Lemma SFsqrt_number x :
  sign_clear x = true -> a_number x = true -> a_number (SF64sqrt x) = true.
Proof.
  destruct x as [[]|[]| |[] mx ex]; try done. intros _ _.
  unfold SF64sqrt, SFsqrt, SFsqrt_core_binary.
  set (m' := match (_ - _)%Z with 0%Z => _ | Z.pos _ => _ | Z.neg _ => _ end).
  pose proof (Z.sqrtrem_spec m') as Hq.
  destruct (Z.sqrtrem m') as [q r].
  apply binary_round_aux_number.
  assert (0 <= m')%Z as Hm'.
  { subst m'. destruct (_ - _)%Z; try done. by apply Z.shiftl_nonneg. }
  specialize (Hq Hm'). simpl in Hq. lia.
Qed.

End Numbers.

Section FiniteMean.
Local Open Scope float_scope.

Lemma leb_zero_number p : (0 <=? p) = true -> a_number (Prim2SF p) = true.
Proof. rewrite leb_zero_spec. by destruct (Prim2SF p). Qed.

Lemma finite_number x : finite x = true -> a_number (Prim2SF x) = true.
Proof. unfold finite. by destruct (Prim2SF x). Qed.

Lemma finite_quotient_operands x y s m e :
  Prim2SF (x / y) = S754_finite s m e ->
  finite x = true /\ exists s' m' e', Prim2SF y = S754_finite s' m' e'.
Proof.
  unfold finite. rewrite FloatAxioms.div_spec.
  destruct (Prim2SF x) as [[]|[]| |[] ? ?], (Prim2SF y) as [[]|[]| |sy my ey];
    try done; eauto.
Qed.

Lemma add_finite_operands x y :
  sign_clear (Prim2SF x) = true -> (0 <=? y) = true ->
  finite (x + y) = true -> finite x = true /\ finite y = true.
Proof.
  unfold finite. rewrite leb_zero_spec, FloatAxioms.add_spec.
  by destruct (Prim2SF x) as [[]|[]| |[] mx ex], (Prim2SF y) as [[]|[]| |[] my ey].
Qed.

Lemma py_sum_from_finite xs acc :
  Forall (fun p => (0 <=? p) = true) xs ->
  sign_clear (Prim2SF acc) = true ->
  finite (fold_left PrimFloat.add xs acc) = true ->
  Forall (fun p => finite p = true) xs.
Proof.
  intros Hxs. revert acc. induction Hxs as [|p xs Hp Hxs IH]; intros acc Hacc Hfin;
    [done|].
  simpl in Hfin.
  assert (sign_clear (Prim2SF (acc + p)) = true) as Hacc'.
  { rewrite FloatAxioms.add_spec. apply SFadd_sign; [done|].
    by apply leb_never_negative. }
  constructor; [|by apply (IH (acc + p))].
  assert (finite (acc + p) = true) as Hfin'.
  { clear IH. revert Hfin Hacc'. generalize (acc + p). clear -Hxs.
    induction Hxs as [|q xs Hq _ IH]; intros a Hfin Ha; [done|].
    simpl in Hfin.
    assert (sign_clear (Prim2SF (a + q)) = true) as Ha'.
    { rewrite FloatAxioms.add_spec. apply SFadd_sign; [done|].
      by apply leb_never_negative. }
    by destruct (add_finite_operands a q Ha Hq (IH _ Hfin Ha')). }
  by destruct (add_finite_operands acc p Hacc Hp Hfin').
Qed.

Lemma float_pow_2_number x y :
  a_number (Prim2SF x) = true -> float_pow_2 x = Ok y -> a_number (Prim2SF y) = true.
Proof.
  unfold float_pow_2. rewrite is_nan_spec, is_infinity_spec, eqb_zero_spec.
  destruct (Prim2SF x) as [sx|sx| |sx mx ex] eqn:Hx; simpl; try done.
  - by intros _ [= <-].
  - intros _ [= <-]. by rewrite FloatAxioms.abs_spec, Hx.
  - intros _. destruct (is_infinity (x * x)); [done|]. intros [= <-].
    rewrite FloatAxioms.mul_spec, Hx. by apply SFmul_diag_number.
Qed.

Lemma sum_gen_number a xs acc total :
  finite a = true -> Forall (fun p => finite p = true) xs ->
  sum_gen (fun p => float_pow_2 (p - a)) xs acc = Ok total ->
  sign_clear (Prim2SF acc) = true -> a_number (Prim2SF acc) = true ->
  a_number (Prim2SF total) = true.
Proof.
  intros Ha Hxs. revert acc. induction Hxs as [|p xs Hp _ IH]; intros acc; simpl.
  - by intros [= ->].
  - destruct (float_pow_2 (p - a)) as [y|e] eqn:Hy; [|done].
    intros Hsum Hacc Hnum.
    pose proof (float_pow_2_sign _ _ Hy) as Hys.
    pose proof (float_pow_2_number _ _ (SFsub_number p a Hp Ha) Hy) as Hyn.
    apply (IH _ Hsum); rewrite FloatAxioms.add_spec.
    + apply SFadd_sign; [done|]. by apply sign_clear_never_negative.
    + apply SFadd_number; try done. by apply sign_clear_never_negative.
Qed.

Lemma float_pow_half_number x :
  sign_clear (Prim2SF x) = true -> a_number (Prim2SF x) = true ->
  a_number (Prim2SF (float_pow_half x)) = true.
Proof.
  unfold float_pow_half. rewrite is_nan_spec, is_infinity_spec, eqb_zero_spec.
  intros Hs Hn.
  destruct (Prim2SF x) as [sx|sx| |sx mx ex] eqn:Hx'; try done.
  - by rewrite FloatAxioms.abs_spec, Hx'.
  - rewrite FloatAxioms.sqrt_spec, Hx'. by apply SFsqrt_number.
Qed.

(** With a finite mean other than zero, the coefficient of variation of
    nonnegative prices is a number. *)
Lemma coefficient_of_variation_number prices v :
  Forall (fun p => (0 <=? p) = true) prices ->
  finite (arithmetic_mean prices) = true ->
  (arithmetic_mean prices =? 0) = false ->
  coefficient_of_variation prices = Ok v ->
  a_number (Prim2SF v) = true.
Proof.
  intros Hp Hfin Hnz.
  destruct (finite_nonzero_spec _ Hfin Hnz) as (s & m & e & Hmean).
  destruct (finite_quotient_operands _ _ _ _ _ Hmean) as (Hsum & sl & ml & el & HL).
  pose proof (py_sum_from_finite prices 0 Hp eq_refl Hsum) as Hfins.
  pose proof (arithmetic_mean_sign prices Hp) as Hsign.
  rewrite Hmean in Hsign. destruct s; [done|].
  unfold coefficient_of_variation.
  destruct (squared_deviations prices) as [total|ex] eqn:Htotal; [|done].
  intros [= <-].
  rewrite FloatAxioms.mul_spec.
  change (Prim2SF 100) with (S754_finite false 7036874417766400 (-46)).
  apply SFmul_number_finite.
  rewrite FloatAxioms.div_spec, Hmean. apply SFdiv_number_finite.
  apply float_pow_half_number; [by apply variance_sign|].
  rewrite FloatAxioms.div_spec, HL. apply SFdiv_number_finite.
  by apply (sum_gen_number _ _ _ _ Hfin Hfins Htotal).
Qed.

End FiniteMean.

(** * Percentage change: lines 105-109 *)

Section PercentageChange.
Local Open Scope float_scope.

(** C7, as far as it holds.  The call answers [0] when the old price equals
    zero, and [((new - old) / old) * 100] otherwise; and from a positive
    old price that is finite to itself the change equals zero. *)
Theorem percentage_change_guarded :
  (forall old new, (old =? 0) = true -> calculate_percentage_change old new = 0) /\
  (forall old new, (old =? 0) = false ->
     calculate_percentage_change old new = ((new - old) / old) * 100) /\
  (forall old, finite old = true -> (0 <? old) = true ->
     (calculate_percentage_change old old =? 0) = true).
Proof.
  unfold calculate_percentage_change. repeat split.
  - by intros old new ->.
  - by intros old new ->.
  - intros old Hfin Hpos.
    destruct (finite_positive_spec old Hfin Hpos) as (m & e & Hold).
    assert ((old =? 0) = false) as -> by by rewrite eqb_zero_spec, Hold.
    rewrite (sub_diag_finite old Hfin).
    by apply (zero_ratio_percent 0 false old false m e).
Qed.

Lemma percentage_change_guarded_witness :
  (calculate_percentage_change 100 100 =? 0) = true.
Proof.
  apply (proj2 (proj2 percentage_change_guarded) 100); reflexivity.
Defined.

(** C7, the counterexample: infinity is a float above zero, and the change
    from it to itself is NaN, which equals nothing. *)
Lemma percentage_change_of_infinity :
  (0 <? infinity) = true /\
  (calculate_percentage_change infinity infinity =? 0) = false.
Proof. split; reflexivity. Qed.

End PercentageChange.

(** * Volatility: lines 129-144 *)

Section Volatility.
Local Open Scope float_scope.

(** The method of the first part is the method on the platform
    [correctly_rounded]. *)
Lemma sum_gen_gen_items f xs acc :
  sum_gen f xs acc =
    match gen_items f xs with
    | Ok ys => Ok (fold_left PrimFloat.add ys acc)
    | Raise e => Raise e
    end.
Proof.
  revert acc. induction xs as [|p rest IH]; intros acc; [done|].
  simpl. destruct (f p) as [y|e]; [|done].
  rewrite IH. by destruct (gen_items f rest).
Qed.

Lemma calculate_volatility_correctly_rounded st ticker :
  calculate_volatility st ticker = calculate_volatility_on correctly_rounded st ticker.
Proof.
  unfold calculate_volatility, calculate_volatility_on, correctly_rounded.
  cbn [sum_floats pow_2 pow_half].
  destruct (price_history st !! ticker) as [h|]; [|done].
  destruct (length h <? 2)%nat; [done|].
  destruct (_ =? 0); [done|].
  rewrite sum_gen_gen_items. by destruct (gen_items _ _).
Qed.

Lemma py_sum_zeros n : py_sum (replicate n 0) = 0.
Proof.
  unfold py_sum. induction n as [|n IH]; [done|].
  simpl. by change (0 + 0) with 0.
Qed.

Lemma correctly_rounded_special_cases : cpython_special_cases correctly_rounded.
Proof. repeat split; try reflexivity. exact py_sum_zeros. Qed.

(** A generator whose every item is [c] hands [sum] that many [c]. *)
Lemma gen_items_constant f c xs :
  Forall (fun p => f p = Ok c) xs -> gen_items f xs = Ok (replicate (length xs) c).
Proof.
  induction 1 as [|p rest Hp _ IH]; [done|].
  simpl. by rewrite Hp, IH.
Qed.

Lemma calculate_volatility_on_short pf st ticker :
  (length (observations st ticker) < 2)%nat ->
  calculate_volatility_on pf st ticker = Ok 0.
Proof.
  unfold observations, stored_history, calculate_volatility_on. rewrite length_map.
  destruct (price_history st !! ticker) as [h|]; [|done]. simpl. intros Hlen.
  by destruct (Nat.ltb_spec (length h) 2); [|lia].
Qed.

Lemma calculate_volatility_on_long pf st ticker :
  (2 <= length (observations st ticker))%nat ->
  calculate_volatility_on pf st ticker =
    if computed_mean pf (observations st ticker) =? 0 then Ok 0
    else
      match gen_items
              (fun p => pow_2 pf (p - computed_mean pf (observations st ticker)))
              (observations st ticker) with
      | Raise e => Raise e
      | Ok squares =>
          Ok ((pow_half pf (sum_floats pf squares
                            / float_of_len (length (observations st ticker)))
               / computed_mean pf (observations st ticker)) * 100)
      end.
Proof.
  unfold observations, stored_history, calculate_volatility_on, computed_mean.
  destruct (price_history st !! ticker) as [h|]; simpl; [|lia].
  rewrite length_map. intros Hlen.
  by destruct (Nat.ltb_spec (length h) 2); [lia|].
Qed.

(** A zero divided by a count is [+0]. *)
Lemma zero_over_count n s m e :
  Prim2SF (float_of_len n) = S754_finite s m e -> 0 / float_of_len n = 0.
Proof.
  intros HL. apply Prim2SF_inj. rewrite FloatAxioms.div_spec, HL.
  pose proof (float_of_len_sign n) as Hs. rewrite HL in Hs.
  by destruct s.
Qed.




(** C10, as far as it holds.  On a history of nonnegative prices the call
    never answers a negative value: it answers a nonnegative one, or NaN
    when the mean of the prices is not finite, or it raises
    [OverflowError]. *)
Theorem volatility_never_negative st ticker :
  Forall (fun p => (0 <=? p) = true) (observations st ticker) ->
  (exists v, calculate_volatility st ticker = Ok v /\
     ((0 <=? v) = true \/
      (is_nan v = true /\ finite (arithmetic_mean (observations st ticker)) = false)))
  \/ calculate_volatility st ticker = Raise OverflowError.
Proof.
  intros Hp.
  destruct (Nat.lt_ge_cases (length (observations st ticker)) 2) as [Hlen|Hlen].
  { left. exists 0. split; [by apply calculate_volatility_short|by left]. }
  rewrite (calculate_volatility_long _ _ Hlen).
  destruct (arithmetic_mean (observations st ticker) =? 0) eqn:Hmean.
  { left. exists 0. split; [done|by left]. }
  destruct (coefficient_of_variation (observations st ticker)) as [v|[]] eqn:Hcv;
    [left|by right].
  exists v. split; [done|].
  pose proof (coefficient_of_variation_sign _ _ Hp Hcv) as Hsign.
  destruct (finite (arithmetic_mean (observations st ticker))) eqn:Hfin.
  - left. pose proof (coefficient_of_variation_number _ _ Hp Hfin Hmean Hcv) as Hnum.
    rewrite leb_zero_spec. by destruct (Prim2SF v) as [[]|[]| |[] ? ?].
  - destruct (never_negative_leb v (sign_clear_never_negative _ Hsign)); auto.
Qed.

Lemma volatility_never_negative_witness :
  (exists v, calculate_volatility (state_with_history "BTC" [100; 100; 100; 99]) "BTC"
             = Ok v /\
     ((0 <=? v) = true \/
      (is_nan v = true /\
       finite (arithmetic_mean
                 (observations (state_with_history "BTC" [100; 100; 100; 99]) "BTC"))
       = false)))
  \/ calculate_volatility (state_with_history "BTC" [100; 100; 100; 99]) "BTC"
     = Raise OverflowError.
Proof.
  apply (volatility_never_negative (state_with_history "BTC" [100; 100; 100; 99]) "BTC").
  vm_compute. repeat constructor.
Defined.

(** C10, the counterexample: two observations of 1e308, both nonnegative.
    Their sum overflows, the mean is infinite, and the call answers NaN,
    which is not nonnegative. *)
Lemma volatility_of_huge_prices :
  Forall (fun p => (0 <=? p) = true)
    (observations (state_with_history "BTC" [1e308; 1e308]) "BTC") /\
  exists v, calculate_volatility (state_with_history "BTC" [1e308; 1e308]) "BTC" = Ok v
            /\ (0 <=? v) = false.
Proof.
  split; [vm_compute; repeat constructor|].
  eexists. split; [vm_compute; reflexivity|reflexivity].
Qed.

End Volatility.

(** * Signal generation: lines 146-209 *)

Section Signals.
Context (cfg : Config) (now : string -> string).

Lemma same_market_refl st : same_market st st.
Proof. done. Qed.

Lemma same_market_log st st' signal :
  same_market st st' -> same_market st (log_signal st' signal).
Proof. by intros [? ?]. Qed.

Lemma calculate_volatility_same_market st st' ticker :
  same_market st st' -> calculate_volatility st' ticker = calculate_volatility st ticker.
Proof. intros [_ Hh]. unfold calculate_volatility. by rewrite Hh. Qed.

Lemma item_signal_same_market st st' item :
  same_market st st' -> item_signal cfg now st' item = item_signal cfg now st item.
Proof.
  intros Hm. unfold item_signal.
  rewrite (calculate_volatility_same_market _ _ _ Hm). by destruct Hm as [-> _].
Qed.

Lemma build_signal_coin ticker old new chg vol t signal :
  build_signal cfg ticker old new chg vol t = Some signal -> coin signal = ticker.
Proof.
  unfold build_signal. intros H.
  repeat (destruct (_ : bool) in H; [by inversion H|]). done.
Qed.

Lemma item_signal_coin st item signal :
  item_signal cfg now st item = Some signal ->
  coin signal = item.1 /\ is_Some (previous_prices st !! item.1).
Proof.
  unfold item_signal. destruct (previous_prices st !! item.1) as [old|]; [|done].
  simpl. destruct (calculate_volatility st item.1); [|done].
  intros H%build_signal_coin. eauto.
Qed.

Lemma log_all_signals_generated sigs st :
  signals_generated (fold_left log_signal sigs st) = signals_generated st ++ sigs.
Proof.
  revert st. induction sigs as [|s sigs IH]; intros st; simpl.
  - by rewrite app_nil_r.
  - rewrite IH. simpl. by rewrite <- app_assoc.
Qed.

Lemma log_all_total_alerts sigs st :
  total_alerts (fold_left log_signal sigs st)
  = (total_alerts st + Z.of_nat (length sigs))%Z.
Proof.
  revert st. induction sigs as [|s sigs IH]; intros st; simpl; [lia|].
  rewrite IH. simpl. lia.
Qed.

Lemma log_all_same_market sigs st st' :
  same_market st st' -> same_market st (fold_left log_signal sigs st').
Proof.
  revert st'. induction sigs as [|s sigs IH]; intros st' Hm; [done|].
  simpl. by apply IH, same_market_log.
Qed.

(** The loop, in every outcome: the signals it built are those of a prefix
    of the items, appended to the list it started from and logged in the
    state in the same order. *)
Lemma signals_loop_logged st0 items st acc :
  same_market st0 st ->
  exists visited,
    visited `prefix_of` items /\
    signals (signals_loop cfg now items st acc)
      = acc ++ omap (item_signal cfg now st0) visited /\
    state_after (signals_loop cfg now items st acc)
      = fold_left log_signal (omap (item_signal cfg now st0) visited) st /\
    (raised (signals_loop cfg now items st acc) = None -> visited = items).
Proof.
  revert st acc. induction items as [|[ticker new] items IH]; intros st acc Hm.
  { exists []. by rewrite app_nil_r. }
  pose proof (item_signal_same_market st0 st (ticker, new) Hm) as Hitem.
  unfold item_signal in Hitem at 1. simpl in *.
  destruct (previous_prices st !! ticker) as [old|] eqn:Hold; simpl in Hitem;
    [destruct (calculate_volatility st ticker) as [vol|e] eqn:Hvol;
     [destruct (build_signal _ _ _ _ _ _ _) as [signal|] eqn:Hsig|]|].
  - destruct (IH (log_signal st signal) (acc ++ [signal])
                (same_market_log _ _ _ Hm))
      as (visited & Hpre & Hsigs & Hst & Hall).
    exists ((ticker, new) :: visited). split; [by apply prefix_cons|].
    simpl. rewrite <- Hitem, Hsigs, Hst, <- app_assoc. repeat split; try done.
    intros Hr. by rewrite (Hall Hr).
  - destruct (IH st acc Hm) as (visited & Hpre & Hsigs & Hst & Hall).
    exists ((ticker, new) :: visited). split; [by apply prefix_cons|].
    simpl. rewrite <- Hitem. repeat split; try done.
    intros Hr. by rewrite (Hall Hr).
  - exists []. simpl. rewrite app_nil_r. repeat split; try done.
    apply prefix_nil.
  - destruct (IH st acc Hm) as (visited & Hpre & Hsigs & Hst & Hall).
    exists ((ticker, new) :: visited). split; [by apply prefix_cons|].
    simpl. rewrite <- Hitem. repeat split; try done.
    intros Hr. by rewrite (Hall Hr).
Qed.

(** A call that returns has computed the volatility of every fetched
    ticker that has a previous price. *)
Lemma signals_loop_returns st0 items st acc ticker new :
  same_market st0 st ->
  raised (signals_loop cfg now items st acc) = None ->
  (ticker, new) ∈ items -> is_Some (previous_prices st0 !! ticker) ->
  exists vol, calculate_volatility st0 ticker = Ok vol.
Proof.
  revert st acc. induction items as [|[t p] items IH]; intros st acc Hm Hr Hin Hold.
  { by apply elem_of_nil in Hin. }
  simpl in Hr. apply elem_of_cons in Hin.
  pose proof Hm as [Hprev _].
  pose proof (calculate_volatility_same_market _ _ t Hm) as Hvol.
  destruct (previous_prices st !! t) as [old|] eqn:Ht.
  - destruct (calculate_volatility st t) as [vol|e]; [|done].
    destruct Hin as [[= -> ->]|Hin]; [eauto|].
    destruct (build_signal _ _ _ _ _ _ _).
    + by apply (IH _ _ (same_market_log _ _ _ Hm) Hr).
    + by apply (IH _ _ Hm Hr).
  - destruct Hin as [[= -> ->]|Hin].
    + rewrite <- Hprev, Ht in Hold. by destruct Hold.
    + by apply (IH _ _ Hm Hr).
Qed.

(** A call raises only where the volatility of a fetched ticker with a
    previous price does. *)
Lemma signals_loop_no_raise st0 items st acc :
  same_market st0 st ->
  (forall item, item ∈ items -> is_Some (previous_prices st0 !! item.1) ->
     exists vol, calculate_volatility st0 item.1 = Ok vol) ->
  raised (signals_loop cfg now items st acc) = None.
Proof.
  revert st acc. induction items as [|[t p] items IH]; intros st acc Hm Hvol; [done|].
  assert (forall st' acc', same_market st0 st' ->
            raised (signals_loop cfg now items st' acc') = None) as IH'.
  { intros st' acc' Hm'. apply IH; [done|]. intros item Hin. apply Hvol. by right. }
  simpl. pose proof Hm as [Hprev _].
  destruct (previous_prices st !! t) as [old|] eqn:Ht; [|by apply IH'].
  rewrite (calculate_volatility_same_market _ _ t Hm).
  destruct (Hvol (t, p)) as [vol Hv]; [by left|simpl; by rewrite <- Hprev, Ht|].
  simpl in Hv. rewrite Hv.
  destruct (build_signal _ _ _ _ _ _ _); apply IH'; [by apply same_market_log|done].
Qed.

(** Items whose ticker has no previous price do not take part. *)
Lemma signals_loop_skip (P : string * float -> Prop) `{!forall x, Decision (P x)}
    items st acc :
  (forall item, item ∈ items -> ~ P item -> previous_prices st !! item.1 = None) ->
  signals_loop cfg now (filter P items) st acc = signals_loop cfg now items st acc.
Proof.
  revert st acc. induction items as [|[t p] items IH]; intros st acc Hskip; [done|].
  assert (forall st' acc', previous_prices st' = previous_prices st ->
            signals_loop cfg now (filter P items) st' acc'
            = signals_loop cfg now items st' acc') as IH'.
  { intros st' acc' Hprev. apply IH. intros item Hin HP. rewrite Hprev.
    apply Hskip; [by right|done]. }
  rewrite filter_cons. destruct (decide (P (t, p))) as [HP|HP]; simpl.
  - destruct (previous_prices st !! t); [|by apply IH'].
    destruct (calculate_volatility st t); [|done].
    destruct (build_signal _ _ _ _ _ _ _); by apply IH'.
  - pose proof (Hskip (t, p) ltac:(by left) HP) as Hnone. simpl in Hnone.
    rewrite Hnone. by apply IH'.
Qed.

(** With distinct tickers, the signals of one ticker are the signal of its
    item. *)
Lemma signals_of_ticker st items ticker new :
  NoDup items.*1 -> (ticker, new) ∈ items ->
  filter (fun s => coin s = ticker) (omap (item_signal cfg now st) items)
  = option_list (item_signal cfg now st (ticker, new)).
Proof.
  assert (forall l, ticker ∉ l.*1 ->
            filter (fun s => coin s = ticker) (omap (item_signal cfg now st) l) = [])
    as Hnone.
  { induction l as [|item l IHl]; [done|]. rewrite fmap_cons, not_elem_of_cons.
    intros [Hne Hnot].
    change (omap (item_signal cfg now st) (item :: l))
      with (match item_signal cfg now st item with
            | Some s => s :: omap (item_signal cfg now st) l
            | None => omap (item_signal cfg now st) l
            end).
    destruct (item_signal cfg now st item) as [s|] eqn:Hs; [|by apply IHl].
    rewrite filter_cons_False; [by apply IHl|].
    destruct (item_signal_coin _ _ _ Hs) as [-> _]. done. }
  induction items as [|item items IH]; intros Hnd Hin.
  { by apply elem_of_nil in Hin. }
  rewrite fmap_cons in Hnd. apply NoDup_cons in Hnd as [Hfresh Hnd].
  change (omap (item_signal cfg now st) (item :: items))
    with (match item_signal cfg now st item with
          | Some s => s :: omap (item_signal cfg now st) items
          | None => omap (item_signal cfg now st) items
          end).
  apply elem_of_cons in Hin as [<-|Hin].
  - destruct (item_signal cfg now st (ticker, new)) as [s|] eqn:Hs.
    + destruct (item_signal_coin _ _ _ Hs) as [Hc _].
      rewrite filter_cons_True by done. by rewrite (Hnone items).
    + by apply Hnone.
  - assert (item.1 <> ticker) as Hne.
    { intros Heq. apply Hfresh. rewrite Heq.
      by apply (list_elem_of_fmap_2 fst items (ticker, new)). }
    destruct (item_signal cfg now st item) as [s|] eqn:Hs; [|by apply IH].
    rewrite filter_cons_False; [by apply IH|].
    destruct (item_signal_coin _ _ _ Hs) as [-> _]. done.
Qed.

End Signals.

Section SignalTheorems.
Context (cfg : Config) (now : string -> string).

Lemma generate_trading_signals_logged cp st :
  exists visited,
    visited `prefix_of` cp /\
    signals (generate_trading_signals cfg now cp st)
      = omap (item_signal cfg now st) visited /\
    state_after (generate_trading_signals cfg now cp st)
      = fold_left log_signal (omap (item_signal cfg now st) visited) st /\
    (raised (generate_trading_signals cfg now cp st) = None ->
     omap (item_signal cfg now st) visited = omap (item_signal cfg now st) cp).
Proof.
  unfold generate_trading_signals.
  destruct (decide (previous_prices st = ∅)) as [Hempty|Hne].
  - exists []. repeat split; [apply prefix_nil|]. intros _. simpl.
    induction cp as [|item cp IH]; [done|].
    change (omap (item_signal cfg now st) (item :: cp))
      with (match item_signal cfg now st item with
            | Some s => s :: omap (item_signal cfg now st) cp
            | None => omap (item_signal cfg now st) cp
            end).
    unfold item_signal at 1. by rewrite Hempty, lookup_empty.
  - destruct (signals_loop_logged cfg now st cp st [] (same_market_refl st))
      as (visited & Hpre & Hsigs & Hst & Hall).
    exists visited. repeat split; try done. intros Hr. by rewrite (Hall Hr).
Qed.

Lemma generate_trading_signals_log cp st :
  signals_generated (state_after (generate_trading_signals cfg now cp st))
  = signals_generated st ++ signals (generate_trading_signals cfg now cp st) /\
  total_alerts (state_after (generate_trading_signals cfg now cp st))
  = (total_alerts st
     + Z.of_nat (length (signals (generate_trading_signals cfg now cp st))))%Z.
Proof.
  destruct (generate_trading_signals_logged cp st) as (visited & _ & Hsigs & Hst & _).
  rewrite Hst, Hsigs. split.
  - apply log_all_signals_generated.
  - apply log_all_total_alerts.
Qed.

(** C9.  In every outcome of a call the log has grown by exactly the
    signals the call built, in their order, and the counter by their
    number; when the call returns, these are the signals it returns. *)
Theorem signals_logged_once cp st :
  let g := generate_trading_signals cfg now cp st in
  signals_generated (state_after g) = signals_generated st ++ signals g /\
  total_alerts (state_after g) = (total_alerts st + Z.of_nat (length (signals g)))%Z /\
  forall sigs, returned g = Some sigs ->
    signals_generated (state_after g) = signals_generated st ++ sigs /\
    total_alerts (state_after g) = (total_alerts st + Z.of_nat (length sigs))%Z.
Proof.
  intros g. destruct (generate_trading_signals_log cp st) as [Hlog Hcount].
  fold g in Hlog, Hcount. repeat split; try done.
  - unfold returned in H. destruct (raised g); [done|]. by inversion H; subst.
  - unfold returned in H. destruct (raised g); [done|]. by inversion H; subst.
Qed.

(** C8.  A fetched ticker without a previous price gets no signal, whatever
    its price: no signal of the call is about it, the call does what it
    does without that ticker in the fetched map, and the log holds the
    signals about it that it held before. *)
Theorem no_signal_on_first_observation cp st ticker :
  previous_prices st !! ticker = None ->
  let g := generate_trading_signals cfg now cp st in
  (forall s, s ∈ signals g -> coin s <> ticker) /\
  generate_trading_signals cfg now (filter (fun item => item.1 <> ticker) cp) st = g /\
  filter (fun s => coin s = ticker) (signals_generated (state_after g))
  = filter (fun s => coin s = ticker) (signals_generated st).
Proof.
  intros Hnew g.
  assert (forall s, s ∈ signals g -> coin s <> ticker) as Hnone.
  { destruct (generate_trading_signals_logged cp st) as (visited & _ & Hsigs & _).
    subst g. rewrite Hsigs. intros s (item & _ & Hs)%list_elem_of_omap.
    destruct (item_signal_coin _ _ _ _ _ Hs) as [-> [old Hold]]. congruence. }
  split; [done|]. split.
  - subst g. unfold generate_trading_signals.
    destruct (decide (previous_prices st = ∅)); [done|].
    apply signals_loop_skip. intros item _ Hitem.
    destruct (decide (item.1 = ticker)) as [->|]; done.
  - pose proof (generate_trading_signals_log cp st) as [Hlog _]. fold g in Hlog.
    rewrite Hlog, filter_app. clear Hlog.
    assert (filter (fun s => coin s = ticker) (signals g) = []) as ->.
    { induction (signals g) as [|s l IH]; [done|].
      rewrite filter_cons_False; [apply IH|].
      - intros s' Hs'. apply Hnone. by right.
      - apply Hnone. by left. }
    by rewrite app_nil_r.
Qed.

(** C1.  For a fetched ticker that has a previous price, a call that
    returns has built exactly the signal of the first test that holds, in
    the order drop, surge, volatility, and none if none holds. *)
Theorem signal_priority_chain cp st ticker new old :
  NoDup cp.*1 -> (ticker, new) ∈ cp ->
  previous_prices st !! ticker = Some old ->
  raised (generate_trading_signals cfg now cp st) = None ->
  exists vol, calculate_volatility st ticker = Ok vol /\
    let change_pct := calculate_percentage_change old new in
    let signal ty why how :=
      {| type := ty; coin := ticker; reason := why;
         old_price := old; new_price := new;
         change := change_pct; volatility := vol;
         signal_timestamp := now ticker; strength := how |} in
    filter (fun s => coin s = ticker)
      (signals (generate_trading_signals cfg now cp st))
    = if (change_pct <=? drop_alert (thresholds cfg))%float then
        [signal SELL_SIGNAL (PriceDropped change_pct)
           (if (change_pct <=? -10)%float then STRONG else MODERATE)]
      else if enable_surge_alerts cfg
              && (surge_alert (thresholds cfg) <=? change_pct)%float then
        [signal BUY_SIGNAL (PriceSurged change_pct)
           (if (20 <=? change_pct)%float then STRONG else MODERATE)]
      else if enable_volatility_tracking cfg && (15 <? vol)%float then
        [signal VOLATILITY_ALERT (HighVolatility vol) WARNING]
      else [].
Proof.
  intros Hnd Hin Hold Hr.
  assert (exists vol, calculate_volatility st ticker = Ok vol) as [vol Hvol].
  { revert Hr. unfold generate_trading_signals.
    destruct (decide (previous_prices st = ∅)) as [Hempty|_].
    - by rewrite Hempty, lookup_empty in Hold.
    - intros Hr. apply (signals_loop_returns cfg now st cp st [] ticker new);
        [apply same_market_refl|done|done|by eexists]. }
  exists vol. split; [done|]. intros change_pct signal.
  destruct (generate_trading_signals_logged cp st) as (visited & _ & Hsigs & _ & Hall).
  rewrite Hsigs, (Hall Hr), (signals_of_ticker cfg now st cp ticker new Hnd Hin).
  unfold item_signal. simpl. rewrite Hold. simpl. rewrite Hvol.
  unfold build_signal. fold change_pct.
  repeat (destruct (_ : bool); [done|]). done.
Qed.

End SignalTheorems.

(** * Witnesses of the signal theorems *)

Lemma signal_priority_chain_witness :
  exists vol,
    calculate_volatility
      (update_price_history default_settings "2024-01-01T12:00:00" [("BTC", 94%float)]
         (state_after_prices [("BTC", 100%float)])) "BTC" = Ok vol /\
    filter (fun s => coin s = "BTC")
      (signals
         (generate_trading_signals default_settings noon [("BTC", 94%float)]
            (update_price_history default_settings "2024-01-01T12:00:00"
               [("BTC", 94%float)] (state_after_prices [("BTC", 100%float)]))))
    = [ {| type := SELL_SIGNAL; coin := "BTC"; reason := PriceDropped (-6)%float;
           old_price := 100%float; new_price := 94%float; change := (-6)%float;
           volatility := vol; signal_timestamp := "2024-01-01T12:00:00";
           strength := MODERATE |} ].
Proof.
  destruct (signal_priority_chain default_settings noon [("BTC", 94%float)]
              (update_price_history default_settings "2024-01-01T12:00:00"
                 [("BTC", 94%float)] (state_after_prices [("BTC", 100%float)]))
              "BTC" 94%float 100%float) as (vol & Hvol & Hsignals).
  - apply NoDup_singleton.
  - by left.
  - reflexivity.
  - vm_compute. reflexivity.
  - exists vol. split; [exact Hvol|exact Hsignals].
Defined.

Lemma no_signal_on_first_observation_witness :
  (forall s,
     s ∈ signals (generate_trading_signals default_settings noon
                    [("BTC", 94%float); ("ETH", 5%float)]
                    (state_after_prices [("BTC", 100%float)])) ->
     coin s <> "ETH") /\
  generate_trading_signals default_settings noon
    (filter (fun item => item.1 <> "ETH") [("BTC", 94%float); ("ETH", 5%float)])
    (state_after_prices [("BTC", 100%float)])
  = generate_trading_signals default_settings noon
      [("BTC", 94%float); ("ETH", 5%float)] (state_after_prices [("BTC", 100%float)]) /\
  filter (fun s => coin s = "ETH")
    (signals_generated
       (state_after
          (generate_trading_signals default_settings noon
             [("BTC", 94%float); ("ETH", 5%float)]
             (state_after_prices [("BTC", 100%float)]))))
  = filter (fun s => coin s = "ETH")
      (signals_generated (state_after_prices [("BTC", 100%float)])).
Proof.
  apply (no_signal_on_first_observation default_settings noon
           [("BTC", 94%float); ("ETH", 5%float)]
           (state_after_prices [("BTC", 100%float)]) "ETH").
  reflexivity.
Defined.

(** * One pass of the loop: lines 286-322 *)

Section Cycle.
Context (cfg : Config).

(** C6.  A pass whose request failed leaves the whole state as it was, the
    time of the last check included, and the loop goes on with the next
    pass. *)
Theorem failed_fetch_skips_cycle tick st rest :
  fetched tick = None ->
  run_cycle cfg tick st = Continue st /\
  run_agent cfg (tick :: rest) st = run_agent cfg rest st.
Proof.
  intros Hfail. assert (run_cycle cfg tick st = Continue st) as Hskip.
  { unfold run_cycle. by rewrite Hfail. }
  split; [done|]. simpl. by rewrite Hskip.
Qed.

(** C3, as far as it holds.  A pass that fetched prices and ran to its end
    leaves as previous prices exactly the fetched map: every fetched ticker
    with its fetched price, and no entry for any other ticker. *)
Theorem previous_prices_replaced tick st cp st' :
  fetched tick = Some cp -> cp <> [] ->
  run_cycle cfg tick st = Continue st' ->
  previous_prices st' = list_to_map cp /\
  (forall ticker, ticker ∉ cp.*1 -> previous_prices st' !! ticker = None) /\
  (forall ticker p, NoDup cp.*1 -> (ticker, p) ∈ cp ->
     previous_prices st' !! ticker = Some p) /\
  last_check st' = Some (now_check tick).
Proof.
  intros Hfetch Hne. unfold run_cycle. rewrite Hfetch.
  destruct cp as [|item cp]; [done|].
  destruct (raised _); [done|]. intros [= <-].
  unfold finish_cycle. cbn [previous_prices last_check].
  repeat split.
  - intros ticker Hnot. by apply not_elem_of_list_to_map_1.
  - intros ticker p Hnd Hin. by apply elem_of_list_to_map_1.
Qed.

End Cycle.

Lemma failed_fetch_skips_cycle_witness :
  run_cycle default_settings failed_fetch (state_after_prices [("BTC", 100%float)])
  = Continue (state_after_prices [("BTC", 100%float)]) /\
  run_agent default_settings [failed_fetch; fetch_of [("BTC", 94%float)]]
    (state_after_prices [("BTC", 100%float)])
  = run_agent default_settings [fetch_of [("BTC", 94%float)]]
      (state_after_prices [("BTC", 100%float)]).
Proof.
  apply (failed_fetch_skips_cycle default_settings failed_fetch
           (state_after_prices [("BTC", 100%float)]) [fetch_of [("BTC", 94%float)]]).
  reflexivity.
Defined.

(** C3, the counterexample: ETH had a previous price and is missing from
    the fetched map; after the pass it has no previous price. *)
Lemma absent_ticker_forgotten :
  exists st',
    run_cycle default_settings (fetch_of [("BTC", 101%float)])
      (state_after_prices [("BTC", 100%float); ("ETH", 50%float)]) = Continue st' /\
    previous_prices (state_after_prices [("BTC", 100%float); ("ETH", 50%float)]) !! "ETH"
    = Some 50%float /\
    ("ETH" ∉ [("BTC", 101%float)].*1) /\
    previous_prices st' !! "ETH" = None.
Proof.
  eexists. split; [vm_compute; reflexivity|].
  split; [reflexivity|]. split; [|reflexivity].
  intros [=]%list_elem_of_singleton.
Qed.

Lemma previous_prices_replaced_witness :
  previous_prices
    (finish_cycle
       (update_price_history default_settings "2024-01-01T12:00:00"
          [("BTC", 101%float)]
          (state_after_prices [("BTC", 100%float); ("ETH", 50%float)]))
       [("BTC", 101%float)] "2024-01-01T12:00:01")
  = list_to_map [("BTC", 101%float)].
Proof.
  apply (previous_prices_replaced default_settings (fetch_of [("BTC", 101%float)])
           (state_after_prices [("BTC", 100%float); ("ETH", 50%float)])
           [("BTC", 101%float)]).
  - reflexivity.
  - discriminate.
  - vm_compute. reflexivity.
Defined.

(** * The configuration: lines 33-63 *)

Section Configuration.

Lemma read_default_config : read_config default_config = Some default_settings.
Proof. vm_compute. reflexivity. Qed.

(** The merge is one level deep: a key of the file replaces the default of
    that key, and a key the file lacks keeps its default. *)
Lemma load_config_top_level file key :
  load_config (Some file) !! key =
    match file !! key with
    | Some value => Some value
    | None => default_config !! key
    end.
Proof.
  unfold load_config, dict_update. rewrite lookup_union.
  destruct (file !! key), (default_config !! key); done.
Qed.

Lemma load_config_no_file : load_config None = default_config.
Proof. done. Qed.

(** C2, the failing input.  A file that sets only [drop_alert] inside
    [thresholds] loses the defaults of [surge_alert] and
    [volatility_window]: the loaded dictionary has no such keys, and the
    subscript of lines 177 and 282 cannot be answered. *)
Theorem partial_thresholds_lose_defaults :
  config_get2 default_config "thresholds" "surge_alert" = Some (JFloat 10.0%float) /\
  config_get2 (load_config (Some partial_thresholds_file)) "thresholds" "drop_alert"
  = Some (JFloat (-3.0)%float) /\
  config_get2 (load_config (Some partial_thresholds_file)) "thresholds" "surge_alert"
  = None /\
  config_get2 (load_config (Some partial_thresholds_file)) "thresholds" "volatility_window"
  = None /\
  load_config (Some partial_thresholds_file) !! "check_interval" = Some (JInt 300) /\
  read_config (load_config (Some partial_thresholds_file)) = None.
Proof. repeat split; vm_compute; reflexivity. Qed.

End Configuration.

(** * The price history: lines 111-127 *)

Section History.

Lemma last_n_length {A} k (l : list A) : length (last_n k l) <= k.
Proof. unfold last_n. rewrite length_drop. lia. Qed.

Lemma last_n_short {A} k (l : list A) : length l <= k -> last_n k l = l.
Proof.
  intros Hlen. unfold last_n. by replace (length l - k) with 0 by lia.
Qed.

(** Keeping the last [k] items, adding items and keeping the last [k]
    again is keeping the last [k] of everything. *)
Lemma last_n_app_last_n {A} k (l1 l2 : list A) :
  last_n k (last_n k l1 ++ l2) = last_n k (l1 ++ l2).
Proof.
  destruct (decide (length l1 <= k)) as [Hle|Hgt]; [by rewrite (last_n_short k l1)|].
  unfold last_n. rewrite !length_app, length_drop, !drop_app, drop_drop, length_drop.
  f_equal; f_equal; lia.
Qed.

(** With a cap of zero, lines 126-127 keep everything: [l[-0:]] is [l]. *)
Lemma trim_history_zero h : trim_history 0 h = h.
Proof.
  unfold trim_history, py_slice_from. simpl.
  destruct (_ >? 0)%Z; [|done].
  by replace (Z.to_nat (Z.min 0 _)) with 0 by lia.
Qed.

(** With a cap of one or more, they keep the last [max_len] entries. *)
Lemma trim_history_last_n max_len h :
  (1 <= max_len)%Z -> trim_history max_len h = last_n (Z.to_nat max_len) h.
Proof.
  intros Hcap. unfold trim_history, py_slice_from.
  destruct (Z.gtb_spec (Z.of_nat (length h)) max_len) as [Hgt|Hle].
  - destruct (Z.ltb_spec (- max_len) 0); [|lia].
    unfold last_n. f_equal. lia.
  - rewrite last_n_short; [done|lia].
Qed.

Lemma record_prices_lookup max_len now cp history ticker :
  NoDup cp.*1 ->
  fold_left (record_price max_len now) cp history !! ticker =
    match (list_to_map cp : gmap string float) !! ticker with
    | Some p =>
        Some (trim_history max_len
                (default [] (history !! ticker) ++ [{| price := p; timestamp := now |}]))
    | None => history !! ticker
    end.
Proof.
  revert history. induction cp as [|[t p] cp IH]; intros history Hnd; [done|].
  rewrite fmap_cons in Hnd. apply NoDup_cons in Hnd as [Hfresh Hnd].
  cbn [fold_left list_to_map foldr]. rewrite (IH _ Hnd). unfold record_price.
  destruct (decide (t = ticker)) as [->|Hne].
  - rewrite (not_elem_of_list_to_map_1 cp ticker Hfresh).
    by rewrite !lookup_insert_eq.
  - by rewrite !lookup_insert_ne.
Qed.

(** One call, seen from one ticker: a fetched ticker gets its price
    appended and its history trimmed; any other history is left alone. *)
Lemma update_price_history_stored cfg now cp st ticker :
  NoDup cp.*1 ->
  stored_history (update_price_history cfg now cp st) ticker =
    match (list_to_map cp : gmap string float) !! ticker with
    | Some p =>
        trim_history (max_history_length cfg)
          (stored_history st ticker ++ [{| price := p; timestamp := now |}])
    | None => stored_history st ticker
    end.
Proof.
  intros Hnd. unfold stored_history, update_price_history. simpl.
  rewrite (record_prices_lookup _ _ _ _ _ Hnd).
  by destruct (list_to_map cp !! ticker).
Qed.

Lemma update_all_stored cfg updates st ticker :
  (1 <= max_history_length cfg)%Z ->
  Forall (fun u => NoDup u.2.*1) updates ->
  stored_history (update_all cfg updates st) ticker =
    match recorded ticker updates with
    | [] => stored_history st ticker
    | _ => last_n (Z.to_nat (max_history_length cfg))
             (stored_history st ticker ++ recorded ticker updates)
    end.
Proof.
  intros Hcap Hnd. revert st.
  induction Hnd as [|[now cp] updates Hcp _ IH]; intros st; [done|].
  unfold update_all in *. cbn [fold_left fst snd]. rewrite IH.
  rewrite (update_price_history_stored cfg now cp st ticker Hcp).
  change (recorded ticker ((now, cp) :: updates))
    with (match (fun p => {| price := p; timestamp := now |}) <$>
                  (list_to_map cp : gmap string float) !! ticker with
          | Some e => e :: recorded ticker updates
          | None => recorded ticker updates
          end).
  destruct (list_to_map cp !! ticker) as [p|]; [|done]. cbn [fmap option_fmap option_map].
  rewrite (trim_history_last_n _ _ Hcap).
  destruct (recorded ticker updates) as [|e es]; [done|].
  by rewrite last_n_app_last_n, <- app_assoc.
Qed.

End History.

Section HistoryTheorems.

(** With a cap of zero no run of updates ever drops an entry. *)
Lemma zero_cap_never_trims cfg updates st ticker :
  max_history_length cfg = 0%Z ->
  Forall (fun u => NoDup u.2.*1) updates ->
  stored_history (update_all cfg updates st) ticker
  = stored_history st ticker ++ recorded ticker updates.
Proof.
  intros Hcap Hnd. revert st.
  induction Hnd as [|[now cp] updates Hcp _ IH]; intros st; [by rewrite app_nil_r|].
  unfold update_all in *. cbn [fold_left fst snd]. rewrite IH.
  rewrite (update_price_history_stored cfg now cp st ticker Hcp), Hcap.
  change (recorded ticker ((now, cp) :: updates))
    with (match (fun p => {| price := p; timestamp := now |}) <$>
                  (list_to_map cp : gmap string float) !! ticker with
          | Some e => e :: recorded ticker updates
          | None => recorded ticker updates
          end).
  destruct (list_to_map cp !! ticker) as [p|]; [|done].
  cbn [fmap option_fmap option_map]. by rewrite trim_history_zero, <- app_assoc.
Qed.

(** The history under a cap of one or more.  Over any run of updates, a
    history within the cap stays within it; a ticker that was fetched at
    least once holds the last [max_history_length] of its old entries and
    the inserted ones, in insertion order; and from an empty history, after
    more insertions than the cap, the oldest entry kept is the inserted one
    of index the number of insertions less the cap. *)
Theorem history_bounded_fifo cfg updates st ticker :
  (1 <= max_history_length cfg)%Z ->
  Forall (fun u => NoDup u.2.*1) updates ->
  let k := Z.to_nat (max_history_length cfg) in
  let kept := stored_history (update_all cfg updates st) ticker in
  let inserted := recorded ticker updates in
  (length (stored_history st ticker) <= k -> length kept <= k) /\
  (inserted <> [] ->
     kept = last_n k (stored_history st ticker ++ inserted) /\ length kept <= k) /\
  (stored_history st ticker = [] -> k < length inserted ->
     kept = drop (length inserted - k) inserted /\
     length kept = k /\
     head kept = inserted !! (length inserted - k)).
Proof.
  intros Hcap Hnd k kept inserted.
  pose proof (update_all_stored cfg updates st ticker Hcap Hnd) as Hkept.
  fold kept inserted k in Hkept.
  assert (inserted <> [] ->
          kept = last_n k (stored_history st ticker ++ inserted)) as Hlast.
  { intros Hne. rewrite Hkept. by destruct inserted. }
  split; [|split].
  - intros Hold. destruct inserted as [|e es] eqn:Hins.
    + by rewrite Hkept.
    + rewrite Hlast by done. apply last_n_length.
  - intros Hne. split; [by apply Hlast|].
    rewrite Hlast by done. apply last_n_length.
  - intros Hempty Hmore.
    assert (kept = drop (length inserted - k) inserted) as Hdrop.
    { rewrite Hlast by (intros Heq; rewrite Heq in Hmore; simpl in Hmore; lia).
      by rewrite Hempty. }
    split; [done|]. rewrite Hdrop, length_drop. split; [lia|].
    rewrite head_lookup, lookup_drop. f_equal. lia.
Qed.

Lemma history_bounded_fifo_witness :
  stored_history
    (update_all
       {| coins := ∅; thresholds := thresholds default_settings;
          check_interval := 300; enable_surge_alerts := true;
          enable_volatility_tracking := true; max_history_length := 2 |}
       [("09:00", [("BTC", 100%float); ("ETH", 50%float)]);
        ("09:05", [("BTC", 101%float)]);
        ("09:10", [("ETH", 51%float); ("BTC", 102%float)])]
       empty_state) "BTC"
  = [ {| price := 101%float; timestamp := "09:05" |};
      {| price := 102%float; timestamp := "09:10" |} ].
Proof.
  apply (history_bounded_fifo
           {| coins := ∅; thresholds := thresholds default_settings;
              check_interval := 300; enable_surge_alerts := true;
              enable_volatility_tracking := true; max_history_length := 2 |}
           [("09:00", [("BTC", 100%float); ("ETH", 50%float)]);
            ("09:05", [("BTC", 101%float)]);
            ("09:10", [("ETH", 51%float); ("BTC", 102%float)])]
           empty_state "BTC").
  - simpl. lia.
  - repeat constructor; rewrite ?not_elem_of_cons; repeat split;
      first [discriminate | apply not_elem_of_nil].
  - reflexivity.
  - vm_compute. lia.
Defined.

(** C5, the failing input: a cap of zero.  Lines 126-127 then trim
    nothing, and every observation stays: after two updates the history of
    the ticker holds two entries, which is more than the cap, and its
    oldest entry is the first one inserted. *)
Theorem zero_cap_keeps_everything :
  max_history_length zero_cap_settings = 0%Z /\
  stored_history
    (update_all zero_cap_settings
       [("09:00", [("BTC", 100%float)]); ("09:05", [("BTC", 101%float)])]
       empty_state) "BTC"
  = [ {| price := 100%float; timestamp := "09:00" |};
      {| price := 101%float; timestamp := "09:05" |} ].
Proof. split; vm_compute; reflexivity. Qed.

End HistoryTheorems.

(** * More on the configuration: lines 33-63 *)

Section ConfigurationOverlay.

(** What the methods read of a configuration depends on its documented
    keys only. *)
Lemma read_config_documented c c' :
  (forall key, key ∈ documented_keys -> c !! key = c' !! key) ->
  read_config c = read_config c'.
Proof.
  intros Hsame. unfold read_config, config_get2.
  rewrite (Hsame "coins"), (Hsame "thresholds"), (Hsame "check_interval"),
    (Hsame "enable_surge_alerts"), (Hsame "enable_volatility_tracking"),
    (Hsame "max_history_length"); [done|..];
    unfold documented_keys; rewrite !elem_of_cons; tauto.
Qed.

(** The merge of [load_config], key by key: a top-level key of the file
    takes the file's value as a whole, any other key keeps its default;
    so a file that sets none of the documented keys leaves the agent with
    exactly the default settings, whatever else it holds. *)
Theorem load_config_overlay file :
  (forall key value, file !! key = Some value ->
     load_config (Some file) !! key = Some value) /\
  (forall key, file !! key = None ->
     load_config (Some file) !! key = default_config !! key) /\
  ((forall key, key ∈ documented_keys -> file !! key = None) ->
   read_config (load_config (Some file)) = Some default_settings).
Proof.
  split; [|split].
  - intros key value Hkey. by rewrite load_config_top_level, Hkey.
  - intros key Hkey. by rewrite load_config_top_level, Hkey.
  - intros Hnone. rewrite <- read_default_config.
    apply read_config_documented. intros key Hkey.
    by rewrite load_config_top_level, (Hnone key Hkey).
Qed.

Lemma load_config_overlay_witness :
  read_config (load_config (Some {[ "theme" := JString "dark" ]}))
  = Some default_settings.
Proof.
  apply (proj2 (proj2 (load_config_overlay {[ "theme" := JString "dark" ]}))).
  intros key Hkey. apply lookup_singleton_ne. intros <-.
  revert Hkey. unfold documented_keys. rewrite !elem_of_cons, elem_of_nil.
  intros [H|[H|[H|[H|[H|[H|[]]]]]]]; discriminate H.
Defined.

End ConfigurationOverlay.

(** * Fetching: lines 83-103 *)

Section Fetching.

Lemma elem_of_dict_set {A} (d : list (string * A)) k v x :
  x ∈ dict_set d k v -> x = (k, v) \/ x ∈ d.
Proof.
  induction d as [|[k' v'] d IH]; simpl.
  - intros ->%list_elem_of_singleton. by left.
  - destruct (decide (k' = k)).
    + intros [->|Hin]%elem_of_cons; [by left|]. right. by right.
    + intros [->|Hin]%elem_of_cons; [right; by left|].
      destruct (IH Hin); [by left|]. right. by right.
Qed.

Lemma dict_set_keys {A} (d : list (string * A)) k v :
  (dict_set d k v).*1 = if decide (k ∈ d.*1) then d.*1 else d.*1 ++ [k].
Proof.
  induction d as [|[k' v'] d IH]; [done|]. cbn [dict_set].
  destruct (decide (k' = k)) as [->|Hne]; rewrite !fmap_cons; cbn [fst].
  - rewrite decide_True; [done|by left].
  - rewrite IH. destruct (decide (k ∈ d.*1)) as [Hin|Hnot].
    + rewrite decide_True; [done|by right].
    + rewrite decide_False; [done|]. rewrite not_elem_of_cons. by split.
Qed.

Lemma dict_set_NoDup {A} (d : list (string * A)) k v :
  NoDup d.*1 -> NoDup (dict_set d k v).*1.
Proof.
  intros Hnd. rewrite dict_set_keys. destruct (decide (k ∈ d.*1)); [done|].
  apply NoDup_app. split; [done|]. split; [|apply NoDup_singleton].
  intros x Hx ->%list_elem_of_singleton. done.
Qed.

Lemma dict_set_fresh {A} (d : list (string * A)) k v :
  k ∉ d.*1 -> dict_set d k v = d ++ [(k, v)].
Proof.
  induction d as [|[k' v'] d IH]; [done|]. rewrite fmap_cons. cbn [dict_set fst].
  rewrite not_elem_of_cons. intros [Hne Hnot].
  rewrite decide_False by done. by rewrite IH.
Qed.

Lemma collect_prices_sound coins data acc cp :
  collect_prices coins data acc = Some cp ->
  (NoDup acc.*1 -> NoDup cp.*1) /\
  forall ticker p, (ticker, p) ∈ cp ->
    (ticker, p) ∈ acc \/
    exists coin_id quote,
      (coin_id, ticker) ∈ coins /\ data !! coin_id = Some quote /\
      quote !! "usd" = Some p.
Proof.
  revert acc. induction coins as [|[coin_id t] coins IH]; intros acc; simpl.
  { intros [= ->]. split; [done|]. by left. }
  destruct (data !! coin_id) as [quote|] eqn:Hdata.
  - destruct (quote !! "usd") as [q|] eqn:Husd; [|done].
    intros Hcp. destruct (IH _ Hcp) as [Hnd Hin]. split.
    + intros Hacc. by apply Hnd, dict_set_NoDup.
    + intros ticker p Htp. destruct (Hin _ _ Htp) as [Hset|(c & qt & Hc & Hq & Hu)].
      * destruct (elem_of_dict_set _ _ _ _ Hset) as [[= -> ->]|Hacc]; [|by left].
        right. exists coin_id, quote. split; [by left|done].
      * right. exists c, qt. split; [by right|done].
  - intros Hcp. destruct (IH _ Hcp) as [Hnd Hin]. split; [done|].
    intros ticker p Htp. destruct (Hin _ _ Htp) as [Hacc|(c & qt & Hc & Hq & Hu)];
      [by left|].
    right. exists c, qt. split; [by right|done].
Qed.

(** A fetched price map has pairwise distinct tickers, and every price in
    it is the "usd" quote of the response for a configured coin with that
    ticker. *)
Theorem fetched_prices_sound coins response cp :
  get_current_prices coins response = Some cp ->
  NoDup cp.*1 /\
  forall ticker p, (ticker, p) ∈ cp ->
    exists data coin_id quote,
      response = Some data /\ (coin_id, ticker) ∈ coins /\
      data !! coin_id = Some quote /\ quote !! "usd" = Some p.
Proof.
  unfold get_current_prices. destruct response as [data|]; [|done].
  intros Hcp. destruct (collect_prices_sound _ _ _ _ Hcp) as [Hnd Hin].
  split; [apply Hnd; constructor|].
  intros ticker p Htp. destruct (Hin _ _ Htp) as [Hnil|(c & qt & Hc & Hq & Hu)].
  - by apply elem_of_nil in Hnil.
  - by exists data, c, qt.
Qed.

Lemma collect_prices_in_order coins data acc :
  NoDup (acc.*1 ++ coins.*2) ->
  (forall coin quote, coin ∈ coins -> data !! coin.1 = Some quote ->
     is_Some (quote !! "usd")) ->
  collect_prices coins data acc = Some (acc ++ omap (quoted data) coins).
Proof.
  revert acc. induction coins as [|[coin_id t] coins IH]; intros acc Hnd Husd.
  { by rewrite app_nil_r. }
  assert (forall acc', NoDup (acc'.*1 ++ coins.*2) ->
            collect_prices coins data acc' = Some (acc' ++ omap (quoted data) coins))
    as IH'.
  { intros acc' Hnd'. apply IH; [done|]. intros coin quote Hin. apply Husd. by right. }
  change (omap (quoted data) ((coin_id, t) :: coins))
    with (match quoted data (coin_id, t) with
          | Some x => x :: omap (quoted data) coins
          | None => omap (quoted data) coins
          end).
  unfold quoted at 1. simpl.
  rewrite fmap_cons in Hnd. simpl in Hnd.
  destruct (data !! coin_id) as [quote|] eqn:Hdata; simpl.
  - destruct (Husd (coin_id, t) quote) as [p Hp]; [by left|done|].
    rewrite Hp. simpl.
    apply NoDup_app in Hnd as (Hacc & Hdisj & Hcoins).
    apply NoDup_cons in Hcoins as [Hfresh Hcoins].
    assert (t ∉ acc.*1) as Ht.
    { intros Hin. apply (Hdisj t Hin). by left. }
    rewrite dict_set_fresh by done. rewrite IH'; [by rewrite <- app_assoc|].
    rewrite fmap_app. simpl. rewrite <- app_assoc. simpl.
    apply NoDup_app. split; [done|]. split; [|by apply NoDup_cons].
    intros x Hx. apply Hdisj. done.
  - apply IH'. apply NoDup_app in Hnd as (Hacc & Hdisj & Hcoins).
    apply NoDup_cons in Hcoins as [_ Hcoins].
    apply NoDup_app. split; [done|]. split; [|done].
    intros x Hx Hin. apply (Hdisj x Hx). by right.
Qed.

Lemma collect_prices_missing_quote coins data acc coin quote :
  coin ∈ coins -> data !! coin.1 = Some quote -> quote !! "usd" = None ->
  collect_prices coins data acc = None.
Proof.
  intros Hin Hdata Husd. revert acc.
  induction coins as [|[coin_id t] coins IH]; intros acc.
  { by apply elem_of_nil in Hin. }
  simpl. apply elem_of_cons in Hin as [->|Hin].
  - simpl in Hdata. by rewrite Hdata, Husd.
  - destruct (data !! coin_id) as [q|]; [|by apply IH].
    destruct (q !! "usd"); [by apply IH|done].
Qed.

Lemma collect_prices_unmentioned coins data acc :
  (forall coin, coin ∈ coins -> data !! coin.1 = None) ->
  collect_prices coins data acc = Some acc.
Proof.
  revert acc. induction coins as [|[coin_id t] coins IH]; intros acc Hnone; [done|].
  pose proof (Hnone (coin_id, t) ltac:(by left)) as Hc. simpl in Hc.
  simpl. rewrite Hc. apply IH. intros coin Hin. apply Hnone. by right.
Qed.

(** With pairwise distinct tickers in the configuration, a response that
    quotes "usd" for every configured coin it mentions is fetched as the
    quoted coins in the order of the configuration, coins it does not
    mention left out; and a response that mentions a configured coin
    without a "usd" quote is fetched as a failure, whatever else it
    quotes. *)
Theorem fetched_prices_in_order coins data :
  (NoDup coins.*2 ->
   (forall coin quote, coin ∈ coins -> data !! coin.1 = Some quote ->
      is_Some (quote !! "usd")) ->
   get_current_prices coins (Some data) = Some (omap (quoted data) coins)) /\
  (forall coin quote, coin ∈ coins -> data !! coin.1 = Some quote ->
     quote !! "usd" = None ->
     get_current_prices coins (Some data) = None).
Proof.
  split.
  - intros Hnd Husd. unfold get_current_prices.
    by rewrite (collect_prices_in_order coins data []).
  - intros coin quote Hin Hdata Husd.
    by apply (collect_prices_missing_quote coins data [] coin quote).
Qed.

Lemma fetched_prices_in_order_witness :
  get_current_prices default_coins
    (Some {[ "ethereum" := {[ "usd" := 3000%float ]};
             "bitcoin" := {[ "usd" := 67000%float; "eur" := 61000%float ]} ]})
  = Some [("BTC", 67000%float); ("ETH", 3000%float)].
Proof.
  refine (proj1 (fetched_prices_in_order default_coins
            {[ "ethereum" := {[ "usd" := 3000%float ]};
               "bitcoin" := {[ "usd" := 67000%float; "eur" := 61000%float ]} ]}) _ _).
  - vm_compute. repeat constructor; rewrite ?not_elem_of_cons; repeat split;
      first [discriminate | apply not_elem_of_nil].
  - intros coin quote Hin. revert quote. revert Hin.
    unfold default_coins. rewrite !elem_of_cons, elem_of_nil.
    intros [->|[->|[->|[->|[->|[]]]]]] quote; vm_compute; intros [= <-]; eauto.
Defined.

Lemma fetched_prices_sound_witness :
  NoDup [("BTC", 67000%float); ("ETH", 3000%float)].*1.
Proof.
  apply (fetched_prices_sound default_coins
           (Some {[ "ethereum" := {[ "usd" := 3000%float ]};
                    "bitcoin" := {[ "usd" := 67000%float; "eur" := 61000%float ]} ]})
           [("BTC", 67000%float); ("ETH", 3000%float)]).
  vm_compute. reflexivity.
Defined.

(** A request that fails, a response that mentions none of the configured
    coins, and a response that mentions one without a "usd" quote all make
    the pass a skipped one: the state stays as it was. *)
Theorem unanswered_request_skips cfg coins response now_h now_s now_c st :
  response = None \/
  (exists data, response = Some data /\
     forall coin, coin ∈ coins -> data !! coin.1 = None) \/
  (exists data coin quote, response = Some data /\ coin ∈ coins /\
     data !! coin.1 = Some quote /\ quote !! "usd" = None) ->
  run_cycle cfg (tick_of_response coins response now_h now_s now_c) st = Continue st.
Proof.
  unfold run_cycle, tick_of_response, get_current_prices. simpl.
  intros [->|[(data & -> & Hnone)|(data & coin & quote & -> & Hin & Hdata & Husd)]].
  - done.
  - by rewrite collect_prices_unmentioned.
  - by rewrite (collect_prices_missing_quote coins data [] coin quote).
Qed.

Lemma unanswered_request_skips_witness :
  run_cycle default_settings
    (tick_of_response default_coins (Some {[ "dogecoin" := {[ "usd" := 1%float ]} ]})
       "2024-01-01T12:00:00" noon "2024-01-01T12:00:01")
    (state_after_prices [("BTC", 100%float)])
  = Continue (state_after_prices [("BTC", 100%float)]).
Proof.
  apply (unanswered_request_skips default_settings default_coins
           (Some {[ "dogecoin" := {[ "usd" := 1%float ]} ]})).
  right. left. eexists. split; [reflexivity|].
  intros coin. unfold default_coins. rewrite !elem_of_cons, elem_of_nil.
  intros [->|[->|[->|[->|[->|[]]]]]]; reflexivity.
Defined.

End Fetching.

(** * More on signal generation: lines 146-209 *)

Section SignalsBuilt.
Context (cfg : Config) (now : string -> string).

Lemma build_signal_sound ticker old new chg vol t s :
  build_signal cfg ticker old new chg vol t = Some s ->
  coin s = ticker /\ old_price s = old /\ new_price s = new /\ change s = chg /\
  volatility s = vol /\ signal_timestamp s = t /\ signal_justified cfg s.
Proof.
  unfold build_signal, signal_justified.
  destruct (chg <=? drop_alert (thresholds cfg))%float eqn:Hdrop.
  { intros [= <-]. simpl. by rewrite Hdrop. }
  destruct (enable_surge_alerts cfg
            && (surge_alert (thresholds cfg) <=? chg)%float) eqn:Hsurge.
  { intros [= <-]. simpl. apply andb_true_iff in Hsurge as [-> ->].
    by rewrite Hdrop. }
  destruct (enable_volatility_tracking cfg && (15 <? vol)%float) eqn:Hvol; [|done].
  intros [= <-]. simpl. apply andb_true_iff in Hvol as [-> ->].
  by rewrite Hdrop, Hsurge.
Qed.

(** Every signal a call builds, whether the call returns or raises, is
    about a fetched ticker that has a previous price: it carries that
    price, the fetched price, their percentage change and the ticker's
    volatility, and its type, reason and strength are the ones the
    thresholds give for that change and volatility. *)
Theorem built_signals_justified cp st s :
  s ∈ signals (generate_trading_signals cfg now cp st) ->
  (coin s, new_price s) ∈ cp /\
  previous_prices st !! coin s = Some (old_price s) /\
  change s = calculate_percentage_change (old_price s) (new_price s) /\
  calculate_volatility st (coin s) = Ok (volatility s) /\
  signal_timestamp s = now (coin s) /\
  signal_justified cfg s.
Proof.
  destruct (generate_trading_signals_logged cfg now cp st)
    as (visited & Hpre & -> & _ & _).
  intros ([ticker new] & Hin & Hs)%list_elem_of_omap.
  pose proof (elem_of_prefix _ _ _ Hin Hpre) as Hcp.
  unfold item_signal in Hs. simpl in Hs.
  destruct (previous_prices st !! ticker) as [old|] eqn:Hold; [|done]. simpl in Hs.
  destruct (calculate_volatility st ticker) as [vol|e] eqn:Hvol; [|done].
  destruct (build_signal_sound _ _ _ _ _ _ _ Hs)
    as (-> & -> & -> & -> & -> & -> & Hj).
  by rewrite Hold, Hvol.
Qed.

Lemma omap_item_signal_coins st items :
  coin <$> omap (item_signal cfg now st) items `sublist_of` items.*1.
Proof.
  induction items as [|item items IH]; [done|].
  change (omap (item_signal cfg now st) (item :: items))
    with (match item_signal cfg now st item with
          | Some s => s :: omap (item_signal cfg now st) items
          | None => omap (item_signal cfg now st) items
          end).
  rewrite fmap_cons.
  destruct (item_signal cfg now st item) as [s|] eqn:Hs.
  - rewrite fmap_cons. destruct (item_signal_coin _ _ _ _ _ Hs) as [-> _].
    by apply sublist_skip.
  - by apply sublist_cons.
Qed.

(** The signals of a call come in the order of the fetched map, at most
    one per fetched ticker: their coins are a subsequence of the fetched
    tickers. *)
Theorem built_signals_in_order cp st :
  coin <$> signals (generate_trading_signals cfg now cp st) `sublist_of` cp.*1 /\
  length (signals (generate_trading_signals cfg now cp st)) <= length cp /\
  (NoDup cp.*1 -> NoDup (coin <$> signals (generate_trading_signals cfg now cp st))).
Proof.
  destruct (generate_trading_signals_logged cfg now cp st)
    as (visited & [rest ->] & -> & _ & _).
  assert (coin <$> omap (item_signal cfg now st) visited
          `sublist_of` (visited ++ rest).*1) as Hsub.
  { rewrite fmap_app. apply sublist_inserts_r, omap_item_signal_coins. }
  split; [done|]. split.
  - apply sublist_length in Hsub. by rewrite !length_fmap in Hsub.
  - intros Hnd. by apply (sublist_NoDup _ _ Hnd).
Qed.

(** A call in which no fetched ticker has a previous price returns
    without a signal and leaves the state as it was, whatever the stored
    histories hold: no volatility is computed, so nothing can overflow. *)
Theorem no_previous_price_no_signal cp st :
  (forall item, item ∈ cp -> previous_prices st !! item.1 = None) ->
  generate_trading_signals cfg now cp st
  = {| state_after := st; signals := []; raised := None |}.
Proof.
  intros Hnew. unfold generate_trading_signals.
  destruct (decide (previous_prices st = ∅)); [done|].
  generalize (@nil Signal) as acc.
  induction cp as [|[t p] cp IH]; intros acc; [done|].
  pose proof (Hnew (t, p) ltac:(by left)) as Hnone. simpl in Hnone.
  simpl. rewrite Hnone.
  apply IH. intros item Hin. apply Hnew. by right.
Qed.

End SignalsBuilt.

Lemma built_signals_justified_witness :
  exists s,
    signals (generate_trading_signals default_settings noon [("BTC", 94%float)]
               (update_price_history default_settings "2024-01-01T12:00:00"
                  [("BTC", 94%float)] (state_after_prices [("BTC", 100%float)])))
    = [s] /\
    type s = SELL_SIGNAL /\ signal_justified default_settings s.
Proof.
  eexists. split; [vm_compute; reflexivity|]. split; [reflexivity|].
  refine (proj2 (proj2 (proj2 (proj2 (proj2
    (built_signals_justified default_settings noon [("BTC", 94%float)]
       (update_price_history default_settings "2024-01-01T12:00:00"
          [("BTC", 94%float)] (state_after_prices [("BTC", 100%float)])) _ _)))))).
  vm_compute. by left.
Defined.

Lemma no_previous_price_no_signal_witness :
  generate_trading_signals default_settings noon [("ETH", 5%float)]
    (state_after_prices [("BTC", 100%float)])
  = {| state_after := state_after_prices [("BTC", 100%float)];
       signals := []; raised := None |}.
Proof.
  apply (no_previous_price_no_signal default_settings noon [("ETH", 5%float)]
           (state_after_prices [("BTC", 100%float)])).
  intros item ->%list_elem_of_singleton. reflexivity.
Defined.

(** * The status display: lines 211-236 *)

Section Display.
Local Open Scope float_scope.

(** A change is shown as flat exactly when it is neither above nor below
    zero: when it equals zero, or is NaN. *)
Theorem direction_flat chg :
  direction_of chg = FLAT <-> (chg =? 0) = true \/ is_nan chg = true.
Proof.
  unfold direction_of.
  rewrite ltb_zero_spec, FloatAxioms.ltb_spec, eqb_zero_spec, is_nan_spec.
  change (Prim2SF 0) with (S754_zero false).
  destruct (Prim2SF chg) as [[]|[]| |[] m e]; simpl; split; try done; auto;
    intros [H|H]; done.
Qed.

Lemma display_status_returns st0 cp st :
  same_market st0 st ->
  (forall item, item ∈ cp -> is_Some (previous_prices st0 !! item.1) ->
     exists vol, calculate_volatility st0 item.1 = Ok vol) ->
  exists lines, display_status cp st = Ok lines /\ length lines = length cp.
Proof.
  intros Hm. pose proof Hm as [Hprev _].
  induction cp as [|[t p] cp IH]; intros Hvol; [by exists []|].
  destruct IH as (lines & Hlines & Hlen).
  { intros item Hin. apply Hvol. by right. }
  simpl. rewrite Hlines, Hprev, (calculate_volatility_same_market _ _ t Hm).
  destruct (previous_prices st0 !! t) as [old|] eqn:Hold.
  - destruct (Hvol (t, p)) as [vol Hv]; [by left|simpl; by rewrite Hold|].
    simpl in Hv. rewrite Hv. eexists. split; [done|]. simpl. by rewrite Hlen.
  - eexists. split; [done|]. simpl. by rewrite Hlen.
Qed.

(** After a call of [generate_trading_signals] that returned, the status
    display of the same prices on the state the call left returns too, with
    one line per fetched ticker: it raises nothing of its own. *)
Theorem display_status_after_signals cfg now cp st :
  raised (generate_trading_signals cfg now cp st) = None ->
  exists lines,
    display_status cp (state_after (generate_trading_signals cfg now cp st))
    = Ok lines /\
    length lines = length cp.
Proof.
  intros Hr.
  destruct (generate_trading_signals_logged cfg now cp st)
    as (visited & _ & _ & -> & _).
  apply (display_status_returns st).
  - apply log_all_same_market, same_market_refl.
  - intros [t p] Hin Hold. revert Hr. unfold generate_trading_signals.
    destruct (decide (previous_prices st = ∅)) as [Hempty|_].
    + simpl in Hold. rewrite Hempty, lookup_empty in Hold. by destruct Hold.
    + intros Hr. by apply (signals_loop_returns cfg now st cp st [] t p).
Qed.

Lemma display_status_after_signals_witness :
  exists lines,
    display_status [("BTC", 94%float)]
      (state_after
         (generate_trading_signals default_settings noon [("BTC", 94%float)]
            (update_price_history default_settings "2024-01-01T12:00:00"
               [("BTC", 94%float)] (state_after_prices [("BTC", 100%float)]))))
    = Ok lines /\
    length lines = length [("BTC", 94%float)].
Proof.
  apply (display_status_after_signals default_settings noon [("BTC", 94%float)]
           (update_price_history default_settings "2024-01-01T12:00:00"
              [("BTC", 94%float)] (state_after_prices [("BTC", 100%float)]))).
  vm_compute. reflexivity.
Defined.

(** On finite prices the percentage change is a number: never NaN. *)
Theorem percentage_change_of_finite old new :
  finite old = true -> finite new = true ->
  is_nan (calculate_percentage_change old new) = false.
Proof.
  intros Hold Hnew. unfold calculate_percentage_change.
  destruct (old =? 0) eqn:Hz; [done|].
  destruct (finite_nonzero_spec old Hold Hz) as (s & m & e & Hsf).
  rewrite is_nan_spec, FloatAxioms.mul_spec, FloatAxioms.div_spec, Hsf.
  change (Prim2SF 100) with (S754_finite false 7036874417766400 (-46)).
  pose proof (SFmul_number_finite _ 7036874417766400 (-46)
                (SFdiv_number_finite _ s m e (SFsub_number new old Hnew Hold))) as H.
  by destruct (SF64mul _ _).
Qed.

Lemma percentage_change_of_finite_witness :
  is_nan (calculate_percentage_change 100 94) = false.
Proof. apply (percentage_change_of_finite 100 94); reflexivity. Defined.

End Display.

(** * The summary: lines 257-274 *)

Section SummaryFacts.

Lemma type_name_inj ty ty' : type_name ty = type_name ty' -> ty = ty'.
Proof. destruct ty, ty'; by intros [=]. Qed.

Lemma count_signals_lookup log m ty :
  default 0 (fold_left count_signal log m !! type_name ty)
  = default 0 (m !! type_name ty) + signals_of_type ty log.
Proof.
  revert m. unfold signals_of_type.
  induction log as [|s log IH]; intros m; simpl; [lia|].
  rewrite IH. unfold count_signal.
  destruct (decide (type s = ty)) as [<-|Hne].
  - rewrite lookup_insert_eq, filter_cons_True by done. simpl. lia.
  - rewrite lookup_insert_ne, filter_cons_False by (try done; by intros ?%type_name_inj).
    done.
Qed.

Lemma count_signals_is_Some log m key :
  is_Some (fold_left count_signal log m !! key) <->
  is_Some (m !! key) \/ exists s, s ∈ log /\ type_name (type s) = key.
Proof.
  revert m. induction log as [|s log IH]; intros m; simpl.
  - split; [by left|]. intros [?|(s & []%elem_of_nil & _)]. done.
  - rewrite IH. unfold count_signal.
    destruct (decide (type_name (type s) = key)) as [<-|Hne].
    + rewrite lookup_insert_eq. split; [|by eauto].
      intros _. right. exists s. split; [by left|done].
    + rewrite lookup_insert_ne by done. split.
      * intros [?|(s' & Hin & Hs')]; [by left|]. right. exists s'. split; [by right|done].
      * intros [?|(s' & [->|Hin]%elem_of_cons & Hs')]; [by left|done|].
        right. by exists s'.
Qed.

Lemma signals_of_type_total log :
  signals_of_type SELL_SIGNAL log + signals_of_type BUY_SIGNAL log
  + signals_of_type VOLATILITY_ALERT log = length log.
Proof.
  unfold signals_of_type. induction log as [|s log IH]; [done|].
  destruct (type s) eqn:Hty;
    repeat first [rewrite filter_cons_True by done
                 |rewrite filter_cons_False by (rewrite Hty; done)];
    simpl; lia.
Qed.

(** The breakdown of the summary holds, for each type that occurs in the
    log, the number of logged signals of that type, and no other key; its
    counts add up to the length of the log. *)
Theorem signal_breakdown_counts cfg st :
  (forall ty,
     signal_breakdown (get_agent_summary cfg st) !! type_name ty
     = if decide (signals_of_type ty (signals_generated st) = 0) then None
       else Some (signals_of_type ty (signals_generated st))) /\
  (forall key, (forall ty, key <> type_name ty) ->
     signal_breakdown (get_agent_summary cfg st) !! key = None) /\
  default 0 (signal_breakdown (get_agent_summary cfg st) !! "SELL_SIGNAL")
  + default 0 (signal_breakdown (get_agent_summary cfg st) !! "BUY_SIGNAL")
  + default 0 (signal_breakdown (get_agent_summary cfg st) !! "VOLATILITY_ALERT")
  = length (signals_generated st).
Proof.
  cbn [signal_breakdown get_agent_summary]. split; [|split].
  - intros ty.
    pose proof (count_signals_lookup (signals_generated st) ∅ ty) as Hcount.
    pose proof (count_signals_is_Some (signals_generated st) ∅ (type_name ty)) as Hsome.
    rewrite lookup_empty in Hcount, Hsome. simpl in Hcount.
    destruct (decide (signals_of_type ty (signals_generated st) = 0)) as [Hz|Hnz].
    + apply eq_None_not_Some. rewrite Hsome. intros [[? [=]]|(s & Hin & Hs)].
      apply type_name_inj in Hs. unfold signals_of_type in Hz.
      apply length_zero_iff_nil in Hz.
      assert (s ∈ filter (fun s => type s = ty) (signals_generated st)) as Hf
        by by apply list_elem_of_filter.
      rewrite Hz in Hf. by apply elem_of_nil in Hf.
    + destruct (fold_left count_signal (signals_generated st) ∅ !! type_name ty)
        as [n|]; simpl in Hcount; [by rewrite Hcount|lia].
  - intros key Hkey. apply eq_None_not_Some.
    rewrite count_signals_is_Some, lookup_empty.
    intros [[? [=]]|(s & _ & Hs)]. by apply (Hkey (type s)).
  - rewrite <- signals_of_type_total.
    pose proof (count_signals_lookup (signals_generated st) ∅) as Hcount.
    change "SELL_SIGNAL" with (type_name SELL_SIGNAL).
    change "BUY_SIGNAL" with (type_name BUY_SIGNAL).
    change "VOLATILITY_ALERT" with (type_name VOLATILITY_ALERT).
    by rewrite !Hcount, !lookup_empty.
Qed.

End SummaryFacts.

(** * The loop as a whole: lines 276-338 *)

Section Loop.
Context (cfg : Config).

Lemma log_all_agent_start_time sigs st :
  agent_start_time (fold_left log_signal sigs st) = agent_start_time st.
Proof.
  revert st. induction sigs as [|s sigs IH]; intros st; [done|].
  simpl. by rewrite IH.
Qed.

Lemma log_all_price_history sigs st :
  price_history (fold_left log_signal sigs st) = price_history st.
Proof.
  revert st. induction sigs as [|s sigs IH]; intros st; [done|].
  simpl. by rewrite IH.
Qed.

(** One pass, in every outcome: the log grows at its end, the counter by
    as much, and the start time stays. *)
Lemma run_cycle_log tick st :
  exists new,
    signals_generated (pass_state (run_cycle cfg tick st))
    = signals_generated st ++ new /\
    total_alerts (pass_state (run_cycle cfg tick st))
    = (total_alerts st + Z.of_nat (length new))%Z /\
    agent_start_time (pass_state (run_cycle cfg tick st)) = agent_start_time st.
Proof.
  unfold run_cycle.
  destruct (fetched tick) as [[|item cp]|];
    try (exists []; simpl; rewrite app_nil_r; repeat split; lia).
  set (st1 := update_price_history cfg (now_history tick) (item :: cp) st).
  set (g := generate_trading_signals cfg (now_signal tick) (item :: cp) st1).
  destruct (generate_trading_signals_log cfg (now_signal tick) (item :: cp) st1)
    as [Hlog Hcount]. fold g in Hlog, Hcount.
  destruct (generate_trading_signals_logged cfg (now_signal tick) (item :: cp) st1)
    as (visited & _ & _ & Hst & _). fold g in Hst.
  exists (signals g).
  assert (agent_start_time (state_after g) = agent_start_time st) as Hstart.
  { by rewrite Hst, log_all_agent_start_time. }
  destruct (raised g); simpl; by rewrite Hlog, Hcount, Hstart.
Qed.

Lemma run_agent_log ticks st :
  exists new,
    signals_generated (run_agent cfg ticks st) = signals_generated st ++ new /\
    total_alerts (run_agent cfg ticks st)
    = (total_alerts st + Z.of_nat (length new))%Z /\
    agent_start_time (run_agent cfg ticks st) = agent_start_time st.
Proof.
  revert st. induction ticks as [|tick ticks IH]; intros st.
  { exists []. simpl. rewrite app_nil_r. repeat split; lia. }
  destruct (run_cycle_log tick st) as (new1 & Hlog1 & Hcount1 & Hstart1).
  simpl. destruct (run_cycle cfg tick st) as [st'|e st']; simpl in *.
  - destruct (IH st') as (new2 & Hlog2 & Hcount2 & Hstart2).
    exists (new1 ++ new2).
    rewrite Hlog2, Hcount2, Hstart2, Hlog1, Hcount1, Hstart1, length_app, <- app_assoc.
    repeat split; lia.
  - by exists new1.
Qed.

(** Over any run of passes, a crash included, the signal log is only ever
    appended to, the counter grows by the number of signals appended, and
    the start time of the agent never changes. *)
Theorem run_agent_appends ticks st :
  signals_generated st `prefix_of` signals_generated (run_agent cfg ticks st) /\
  (total_alerts (run_agent cfg ticks st) - total_alerts st
   = Z.of_nat (length (signals_generated (run_agent cfg ticks st)))
     - Z.of_nat (length (signals_generated st)))%Z /\
  agent_start_time (run_agent cfg ticks st) = agent_start_time st.
Proof.
  destruct (run_agent_log ticks st) as (new & Hlog & Hcount & Hstart).
  rewrite Hlog, Hcount, Hstart, length_app. repeat split; [|lia].
  by exists new.
Qed.

(** From a state whose counter counts its log (a fresh state does), every
    run of passes ends in such a state, and the total of its summary is
    the sum of the counts of its breakdown. *)
Theorem alerts_counted_kept ticks st :
  alerts_counted st ->
  alerts_counted (run_agent cfg ticks st) /\
  total_signals (get_agent_summary cfg (run_agent cfg ticks st))
  = Z.of_nat
      (default 0 (signal_breakdown (get_agent_summary cfg (run_agent cfg ticks st))
                  !! "SELL_SIGNAL")
       + default 0 (signal_breakdown (get_agent_summary cfg (run_agent cfg ticks st))
                    !! "BUY_SIGNAL")
       + default 0 (signal_breakdown (get_agent_summary cfg (run_agent cfg ticks st))
                    !! "VOLATILITY_ALERT")).
Proof.
  unfold alerts_counted. intros Hst.
  destruct (run_agent_log ticks st) as (new & Hlog & Hcount & _).
  assert (total_alerts (run_agent cfg ticks st)
          = Z.of_nat (length (signals_generated (run_agent cfg ticks st)))) as Hkept.
  { rewrite Hlog, Hcount, Hst, length_app. lia. }
  split; [done|]. cbn [total_signals signal_breakdown get_agent_summary].
  rewrite Hkept. f_equal.
  pose proof (count_signals_lookup (signals_generated (run_agent cfg ticks st)) ∅)
    as Hc.
  change "SELL_SIGNAL" with (type_name SELL_SIGNAL).
  change "BUY_SIGNAL" with (type_name BUY_SIGNAL).
  change "VOLATILITY_ALERT" with (type_name VOLATILITY_ALERT).
  rewrite !Hc, !lookup_empty. cbn [default].
  pose proof (signals_of_type_total (signals_generated (run_agent cfg ticks st))).
  lia.
Qed.

End Loop.

Lemma alerts_counted_kept_witness :
  alerts_counted
    (run_agent default_settings
       [fetch_of [("BTC", 100%float)]; failed_fetch; fetch_of [("BTC", 94%float)]]
       empty_state).
Proof.
  apply (alerts_counted_kept default_settings
           [fetch_of [("BTC", 100%float)]; failed_fetch; fetch_of [("BTC", 94%float)]]
           empty_state).
  reflexivity.
Defined.

(** * More on the price history: lines 111-127 *)

Section HistoryCaps.

(** A negative cap cuts from the front: [l[k:]] for the cap [-k]. *)
Lemma trim_history_negative max_len h :
  (max_len < 0)%Z -> trim_history max_len h = drop (Z.to_nat (- max_len)) h.
Proof.
  intros Hneg. unfold trim_history, py_slice_from.
  destruct (Z.gtb_spec (Z.of_nat (length h)) max_len); [|lia].
  destruct (Z.ltb_spec (- max_len) 0); [lia|].
  destruct (decide (- max_len <= Z.of_nat (length h))%Z).
  - f_equal. lia.
  - rewrite !drop_ge; [done|lia..].
Qed.

Lemma last_n_snoc {A} k (l : list A) x :
  1 <= k -> last (last_n k (l ++ [x])) = Some x.
Proof.
  intros Hk. unfold last_n. rewrite length_app. simpl.
  rewrite drop_app_le by lia. apply last_snoc.
Qed.

(** With a cap that is not negative, the entry just appended survives the
    trim. *)
Lemma trim_history_keeps_newest max_len h e :
  (0 <= max_len)%Z -> last (trim_history max_len (h ++ [e])) = Some e.
Proof.
  intros Hcap. destruct (decide (max_len = 0%Z)) as [->|Hne].
  - rewrite trim_history_zero. apply last_snoc.
  - rewrite trim_history_last_n by lia. apply last_n_snoc. lia.
Qed.

(** One call of [update_price_history] under every integer cap.  A
    fetched ticker gets its price appended, and then: a cap of one or more
    keeps the last [cap] entries; a cap of zero keeps all of them; a
    negative cap [-k] drops the first [k], so that an empty history stays
    empty.  The history of a ticker that was not fetched is untouched. *)
Theorem update_price_history_every_cap cfg now cp st :
  NoDup cp.*1 ->
  (forall ticker p, (ticker, p) ∈ cp ->
     stored_history (update_price_history cfg now cp st) ticker
     = if decide (1 <= max_history_length cfg)%Z then
         last_n (Z.to_nat (max_history_length cfg))
           (stored_history st ticker ++ [{| price := p; timestamp := now |}])
       else if decide (max_history_length cfg = 0%Z) then
         stored_history st ticker ++ [{| price := p; timestamp := now |}]
       else
         drop (Z.to_nat (- max_history_length cfg))
           (stored_history st ticker ++ [{| price := p; timestamp := now |}])) /\
  (forall ticker, ticker ∉ cp.*1 ->
     stored_history (update_price_history cfg now cp st) ticker
     = stored_history st ticker) /\
  ((max_history_length cfg < 0)%Z ->
   forall ticker, stored_history st ticker = [] ->
     stored_history (update_price_history cfg now cp st) ticker = []).
Proof.
  intros Hnd.
  assert (forall ticker p, (ticker, p) ∈ cp ->
            stored_history (update_price_history cfg now cp st) ticker
            = trim_history (max_history_length cfg)
                (stored_history st ticker ++ [{| price := p; timestamp := now |}]))
    as Hfetched.
  { intros ticker p Hin. rewrite (update_price_history_stored _ _ _ _ _ Hnd).
    by rewrite (elem_of_list_to_map_1 cp ticker p Hnd Hin). }
  assert (forall ticker, ticker ∉ cp.*1 ->
            stored_history (update_price_history cfg now cp st) ticker
            = stored_history st ticker) as Hother.
  { intros ticker Hnot. rewrite (update_price_history_stored _ _ _ _ _ Hnd).
    by rewrite (not_elem_of_list_to_map_1 cp ticker Hnot). }
  split; [|split; [done|]].
  - intros ticker p Hin. rewrite (Hfetched _ _ Hin).
    destruct (decide (1 <= max_history_length cfg)%Z);
      [by apply trim_history_last_n|].
    destruct (decide (max_history_length cfg = 0%Z)) as [Hz|];
      [rewrite Hz; by apply trim_history_zero|].
    apply trim_history_negative. lia.
  - intros Hneg ticker Hempty.
    destruct (decide (ticker ∈ cp.*1)) as [Hin|Hnot]; [|by rewrite Hother].
    apply list_elem_of_fmap in Hin as ([t p] & -> & Hin). simpl in *.
    rewrite (Hfetched _ _ Hin), Hempty, trim_history_negative by done.
    apply drop_ge. simpl. lia.
Qed.

Lemma update_price_history_every_cap_witness :
  stored_history
    (update_price_history default_settings "2024-01-01T12:00:00"
       [("BTC", 94%float); ("ETH", 5%float)] (state_after_prices [("BTC", 100%float)]))
    "SOL"
  = stored_history (state_after_prices [("BTC", 100%float)]) "SOL".
Proof.
  refine (proj1 (proj2 (update_price_history_every_cap default_settings
            "2024-01-01T12:00:00" [("BTC", 94%float); ("ETH", 5%float)]
            (state_after_prices [("BTC", 100%float)]) _)) "SOL" _).
  - apply NoDup_cons. split; [|apply NoDup_singleton].
    by intros [=]%list_elem_of_singleton.
  - intros Hin. repeat (apply elem_of_cons in Hin as [[=]|Hin]).
    by apply elem_of_nil in Hin.
Defined.

(** After a pass that fetched prices and ran to its end under a cap that
    is not negative, every fetched ticker has its fetched price both as
    its previous price and as the price of the newest entry of its
    history, stamped with the time of the update. *)
Theorem previous_price_is_newest_observation cfg tick st cp st' :
  (0 <= max_history_length cfg)%Z ->
  fetched tick = Some cp -> NoDup cp.*1 ->
  run_cycle cfg tick st = Continue st' ->
  forall ticker p, (ticker, p) ∈ cp ->
    previous_prices st' !! ticker = Some p /\
    last (stored_history st' ticker)
    = Some {| price := p; timestamp := now_history tick |}.
Proof.
  intros Hcap Hfetch Hnd. unfold run_cycle. rewrite Hfetch.
  destruct cp as [|item cp]; [by intros _ ? ? ?%elem_of_nil|].
  set (items := item :: cp) in *.
  set (st1 := update_price_history cfg (now_history tick) items st).
  destruct (generate_trading_signals_logged cfg (now_signal tick) items st1)
    as (visited & _ & _ & Hst & _).
  destruct (raised _); [done|]. intros [= <-] ticker p Hin.
  split; [by apply elem_of_list_to_map_1|].
  unfold stored_history, finish_cycle. cbn [price_history].
  rewrite Hst, log_all_price_history.
  fold (stored_history st1 ticker). subst st1.
  rewrite (update_price_history_stored _ _ _ _ _ Hnd).
  rewrite (elem_of_list_to_map_1 items ticker p Hnd Hin).
  by apply trim_history_keeps_newest.
Qed.

Lemma previous_price_is_newest_observation_witness :
  previous_prices
    (finish_cycle
       (update_price_history default_settings "2024-01-01T12:00:00"
          [("BTC", 101%float)]
          (state_after_prices [("BTC", 100%float); ("ETH", 50%float)]))
       [("BTC", 101%float)] "2024-01-01T12:00:01") !! "BTC" = Some 101%float /\
  last (stored_history
          (finish_cycle
             (update_price_history default_settings "2024-01-01T12:00:00"
                [("BTC", 101%float)]
                (state_after_prices [("BTC", 100%float); ("ETH", 50%float)]))
             [("BTC", 101%float)] "2024-01-01T12:00:01") "BTC")
  = Some {| price := 101%float; timestamp := "2024-01-01T12:00:00" |}.
Proof.
  apply (previous_price_is_newest_observation default_settings
           (fetch_of [("BTC", 101%float)])
           (state_after_prices [("BTC", 100%float); ("ETH", 50%float)])
           [("BTC", 101%float)]).
  - vm_compute. discriminate.
  - reflexivity.
  - apply NoDup_singleton.
  - vm_compute. reflexivity.
  - by left.
Defined.

End HistoryCaps.

(** * Tickers shared by several coins: lines 94-99 *)

Section SharedTickers.

Lemma dict_set_to_map {A} (d : list (string * A)) k v :
  (list_to_map (dict_set d k v) : gmap string A) = <[k := v]> (list_to_map d).
Proof.
  induction d as [|[k' v'] d IH]; [done|]. cbn [dict_set].
  destruct (decide (k' = k)) as [->|Hne]; cbn [list_to_map foldr fst snd uncurry curry].
  - by rewrite insert_insert_eq.
  - rewrite IH. by apply insert_insert_ne.
Qed.

Lemma collect_prices_lookup coins data acc cp ticker :
  collect_prices coins data acc = Some cp ->
  (list_to_map cp : gmap string float) !! ticker
  = match last (filter (fun x => x.1 = ticker) (omap (quoted data) coins)) with
    | Some x => Some x.2
    | None => (list_to_map acc : gmap string float) !! ticker
    end.
Proof.
  revert acc. induction coins as [|[coin_id t] coins IH]; intros acc.
  { by intros [= ->]. }
  change (omap (quoted data) ((coin_id, t) :: coins))
    with (match quoted data (coin_id, t) with
          | Some x => x :: omap (quoted data) coins
          | None => omap (quoted data) coins
          end).
  unfold quoted at 1. simpl.
  destruct (data !! coin_id) as [quote|]; simpl; [|by apply IH].
  destruct (quote !! "usd") as [p|]; simpl; [|done].
  intros Hcp. rewrite (IH _ Hcp), dict_set_to_map.
  destruct (decide (t = ticker)) as [->|Hne].
  - rewrite filter_cons_True by done. rewrite last_cons, lookup_insert_eq.
    by destruct (last _).
  - rewrite filter_cons_False by done. by rewrite lookup_insert_ne.
Qed.

(** Whatever the configuration, the price fetched for a ticker is the
    quote of the last configured coin with that ticker that the response
    mentions; a ticker of no mentioned coin is not fetched. *)
Theorem fetched_price_of_ticker coins data cp ticker :
  get_current_prices coins (Some data) = Some cp ->
  (list_to_map cp : gmap string float) !! ticker
  = snd <$> last (filter (fun x => x.1 = ticker) (omap (quoted data) coins)).
Proof.
  unfold get_current_prices. intros Hcp.
  rewrite (collect_prices_lookup _ _ _ _ ticker Hcp).
  by destruct (last _).
Qed.

Lemma fetched_price_of_ticker_witness :
  (list_to_map [("BTC", 2%float)] : gmap string float) !! "BTC"
  = snd <$> last (filter (fun x => x.1 = "BTC")
                    (omap (quoted {[ "bitcoin" := {[ "usd" := 1%float ]};
                                     "wrapped-bitcoin" := {[ "usd" := 2%float ]} ]})
                       [("bitcoin", "BTC"); ("wrapped-bitcoin", "BTC")])).
Proof.
  apply (fetched_price_of_ticker
           [("bitcoin", "BTC"); ("wrapped-bitcoin", "BTC")]
           {[ "bitcoin" := {[ "usd" := 1%float ]};
              "wrapped-bitcoin" := {[ "usd" := 2%float ]} ]}
           [("BTC", 2%float)] "BTC").
  vm_compute. reflexivity.
Defined.

End SharedTickers.

(** * A pass that crashes: lines 336-338 *)

Section Crash.
Context (cfg : Config).


End Crash.

